(** * Achievements ticker (src/ticker.js): a shallow embedding

    The widget is one JavaScript class, [AchievementsTicker], that keeps a
    list of achievement records, renders it twice into a DOM element and
    reacts to a few events.  The embedding follows the class method by
    method.  The object ([this]), the part of the page the class touches
    (document, window, console) and the DOM elements live in one [State];
    every method is a computation in a small state-and-exception monad
    [Js], so that [try]/[catch], [forEach] and the field updates read as
    they do in the source. *)

From Stdlib Require Import ZArith Lia Sorted Permutation.
From stdpp Require Import base option list strings pretty gmap fin_maps sorting.

Local Open Scope string_scope.
Local Open Scope nat_scope.
Local Open Scope list_scope.

(** ** Data model *)

(** One achievement record, as the JSON resource and the fallback list give
    it.  [priority] is a JavaScript number holding an integer. *)
Record Achievement : Type := mkAchievement {
  id : string;
  text : string;
  category : string;
  priority : Z
}.

(** A thrown JavaScript value: an [Error] object with its name and message. *)
Inductive JsError : Type :=
| mkError (name message : string).

(** The values [response.json()] can resolve to, at the granularity
    [loadAchievements] looks at them: it reads the property [achievements]
    of the parsed value, tests it for truthiness and sorts it.  An array is
    an array of records of the expected shape; a number is an integer. *)
#[warnings="-register-all"]
Inductive JsValue : Type :=
| JsNull
| JsBool (b : bool)
| JsNumber (n : Z)
| JsString (s : string)
| JsArray (l : list Achievement)
| JsObject (fields : list (string * JsValue)).

(** What the two awaited promises of [loadAchievements] settle to. *)
Inductive JsonResult : Type :=
| JsonRejected (e : JsError)
| JsonParsed (v : JsValue).

Record Response : Type := mkResponse {
  status : Z;
  json : JsonResult
}.

Inductive FetchResult : Type :=
| FetchRejected (e : JsError)
| FetchResolved (r : Response).

(** [response.ok]: the status is in the range 200..299. *)
Definition ok (r : Response) : bool :=
  ((200 <=? status r) && (status r <=? 299))%Z.

(** ** The DOM *)

(** Element objects that carry state of their own (the track, the
    container) live in a store and are referred to by location, because the
    document and [this.tickerTrack] share them. *)
Definition loc : Type := nat.

(** A ticker item: the [div] built by [createTickerItems].  [node_id] is the
    identity of the object; [cloneNode] gives a new one. *)
Record Node : Type := mkNode {
  node_id : nat;
  tagName : string;
  className : string;
  attributes : list (string * string);
  textContent : string
}.

(** What an item shows, identity left out. *)
Record NodeContent : Type := mkContent {
  c_tagName : string;
  c_className : string;
  c_attributes : list (string * string);
  c_textContent : string
}.

Definition content (n : Node) : NodeContent :=
  mkContent (tagName n) (className n) (attributes n) (textContent n).

(** The inline style properties the class writes. *)
Record Style : Type := mkStyle {
  animationPlayState : string;
  animationDuration : string;
  opacity : string
}.

(** The three arrow functions the class registers as listeners. *)
Inductive Handler : Type :=
| OnMouseEnter   (* () => { this.pauseAnimation(); } *)
| OnMouseLeave   (* () => { this.resumeAnimation(); } *)
| OnResize.      (* () => this.handleResponsiveSpeed() *)

Record Element : Type := mkElement {
  children : list Node;
  style : Style;
  listeners : list (string * Handler)
}.

(** Callbacks handed to [setTimeout]. *)
Inductive Timer : Type :=
| FadeInTrack.   (* () => { if (this.tickerTrack) this.tickerTrack.style.opacity = '1'; } *)

Inductive LogArg : Type :=
| ArgString (s : string)
| ArgNumber (n : Z)
| ArgError (e : JsError).

Inductive LogEntry : Type :=
| console_log (args : list LogArg)
| console_error (args : list LogArg).

(** ** The state: the object and the page *)

Record State : Type := mkState {
  (* fields of the AchievementsTicker object *)
  achievementsData : list Achievement;
  tickerTrack : option loc;
  isLoaded : bool;
  animationSpeed : Z;
  (* the page *)
  elements : gmap loc Element;
  by_id : gmap string loc;          (* document.getElementById *)
  by_selector : gmap string loc;    (* document.querySelector *)
  innerWidth : Z;                   (* window.innerWidth *)
  window_listeners : list (string * Handler);
  timeouts : list (Timer * Z);
  next_node_id : nat;
  console : list LogEntry
}.

Definition set_achievementsData (v : list Achievement) (s : State) : State :=
  mkState v (tickerTrack s) (isLoaded s) (animationSpeed s) (elements s)
    (by_id s) (by_selector s) (innerWidth s) (window_listeners s)
    (timeouts s) (next_node_id s) (console s).

Definition set_tickerTrack (v : option loc) (s : State) : State :=
  mkState (achievementsData s) v (isLoaded s) (animationSpeed s) (elements s)
    (by_id s) (by_selector s) (innerWidth s) (window_listeners s)
    (timeouts s) (next_node_id s) (console s).

Definition set_isLoaded (v : bool) (s : State) : State :=
  mkState (achievementsData s) (tickerTrack s) v (animationSpeed s)
    (elements s) (by_id s) (by_selector s) (innerWidth s)
    (window_listeners s) (timeouts s) (next_node_id s) (console s).

Definition set_animationSpeed (v : Z) (s : State) : State :=
  mkState (achievementsData s) (tickerTrack s) (isLoaded s) v (elements s)
    (by_id s) (by_selector s) (innerWidth s) (window_listeners s)
    (timeouts s) (next_node_id s) (console s).

Definition set_elements (v : gmap loc Element) (s : State) : State :=
  mkState (achievementsData s) (tickerTrack s) (isLoaded s)
    (animationSpeed s) v (by_id s) (by_selector s) (innerWidth s)
    (window_listeners s) (timeouts s) (next_node_id s) (console s).

Definition set_innerWidth (v : Z) (s : State) : State :=
  mkState (achievementsData s) (tickerTrack s) (isLoaded s)
    (animationSpeed s) (elements s) (by_id s) (by_selector s) v
    (window_listeners s) (timeouts s) (next_node_id s) (console s).

Definition set_window_listeners (v : list (string * Handler)) (s : State)
  : State :=
  mkState (achievementsData s) (tickerTrack s) (isLoaded s)
    (animationSpeed s) (elements s) (by_id s) (by_selector s) (innerWidth s)
    v (timeouts s) (next_node_id s) (console s).

Definition set_timeouts (v : list (Timer * Z)) (s : State) : State :=
  mkState (achievementsData s) (tickerTrack s) (isLoaded s)
    (animationSpeed s) (elements s) (by_id s) (by_selector s) (innerWidth s)
    (window_listeners s) v (next_node_id s) (console s).

Definition set_next_node_id (v : nat) (s : State) : State :=
  mkState (achievementsData s) (tickerTrack s) (isLoaded s)
    (animationSpeed s) (elements s) (by_id s) (by_selector s) (innerWidth s)
    (window_listeners s) (timeouts s) v (console s).

Definition set_console (v : list LogEntry) (s : State) : State :=
  mkState (achievementsData s) (tickerTrack s) (isLoaded s)
    (animationSpeed s) (elements s) (by_id s) (by_selector s) (innerWidth s)
    (window_listeners s) (timeouts s) (next_node_id s) v.

(** ** The monad: state and exceptions *)

Inductive Completion (A : Type) : Type :=
| Normal (a : A)
| Throw (e : JsError).
Arguments Normal {A} a.
Arguments Throw {A} e.

Definition Js (A : Type) : Type := State -> Completion A * State.

Definition ret {A} (a : A) : Js A := fun s => (Normal a, s).

Definition bind {A B} (m : Js A) (k : A -> Js B) : Js B :=
  fun s =>
    match m s with
    | (Normal a, s') => k a s'
    | (Throw e, s') => (Throw e, s')
    end.

Definition throw {A} (e : JsError) : Js A := fun s => (Throw e, s).

(** [try { m } catch (error) { h error }]: the state changes made before the
    throw stay. *)
Definition try_catch {A} (m : Js A) (h : JsError -> Js A) : Js A :=
  fun s =>
    match m s with
    | (Normal a, s') => (Normal a, s')
    | (Throw e, s') => h e s'
    end.

Definition gets {A} (f : State -> A) : Js A := fun s => (Normal (f s), s).
Definition modify (f : State -> State) : Js unit := fun s => (Normal tt, f s).

#[global] Instance Js_ret : MRet Js := @ret.
#[global] Instance Js_bind : MBind Js := fun A B k m => bind m k.

(** The state a computation ends in, and how it completes. *)
Definition exec {A} (m : Js A) (s : State) : State := snd (m s).
Definition completion {A} (m : Js A) (s : State) : Completion A := fst (m s).

(** [array.forEach(f)] *)
Fixpoint forEach {A} (l : list A) (f : A -> Js unit) : Js unit :=
  match l with
  | [] => ret tt
  | x :: l' => f x;; forEach l' f
  end.

(** [array.forEach((x, index) => f x index)], the index counted from [i]. *)
Fixpoint forEach_index {A} (i : Z) (l : list A) (f : A -> Z -> Js unit)
  : Js unit :=
  match l with
  | [] => ret tt
  | x :: l' => f x i;; forEach_index (i + 1)%Z l' f
  end.

(** [array.map(f)] *)
Fixpoint array_map {A B} (l : list A) (f : A -> Js B) : Js (list B) :=
  match l with
  | [] => ret []
  | x :: l' => y ← f x; ys ← array_map l' f; ret (y :: ys)
  end.

(** ** Array.prototype.sort

    The language guarantees a stable sort: the result is ordered by the
    comparison function, and elements that compare equal keep their
    relative order.  [array_sort] is the stable insertion sort for a
    comparison function [comparefn] that returns a number: [x] moves behind
    [y] exactly when [comparefn x y > 0]. *)
Section Sort.
Context {A : Type} (comparefn : A -> A -> Z).

Fixpoint sort_insert (x : A) (l : list A) : list A :=
  match l with
  | [] => [x]
  | y :: l' =>
      if (0 <? comparefn x y)%Z then y :: sort_insert x l' else x :: y :: l'
  end.

Fixpoint array_sort (l : list A) : list A :=
  match l with
  | [] => []
  | x :: l' => sort_insert x (array_sort l')
  end.
End Sort.

(** [(a, b) => a.priority - b.priority] *)
Definition by_priority (a b : Achievement) : Z := (priority a - priority b)%Z.

(** ** Primitives of the page *)

Definition console_write (e : LogEntry) : Js unit :=
  modify (fun s => set_console (console s ++ [e]) s).

Definition getElementById (i : string) : Js (option loc) :=
  gets (fun s => by_id s !! i).

Definition querySelector (sel : string) : Js (option loc) :=
  gets (fun s => by_selector s !! sel).

(** An assignment through a reference to an element object. *)
Definition update_element (l : loc) (f : Element -> Element) : Js unit :=
  modify (fun s => set_elements (alter f l (elements s)) s).

Definition set_children (v : list Node) (e : Element) : Element :=
  mkElement v (style e) (listeners e).
Definition set_style (v : Style) (e : Element) : Element :=
  mkElement (children e) v (listeners e).
Definition set_listeners (v : list (string * Handler)) (e : Element)
  : Element :=
  mkElement (children e) (style e) v.

Definition set_animationPlayState (v : string) (st : Style) : Style :=
  mkStyle v (animationDuration st) (opacity st).
Definition set_animationDuration (v : string) (st : Style) : Style :=
  mkStyle (animationPlayState st) v (opacity st).
Definition set_opacity (v : string) (st : Style) : Style :=
  mkStyle (animationPlayState st) (animationDuration st) v.

(** [document.createElement(tag)]: a new object, empty. *)
Definition createElement (tag : string) : Js Node :=
  fun s => (Normal (mkNode (next_node_id s) tag "" [] ""),
            set_next_node_id (S (next_node_id s)) s).

(** [node.cloneNode(true)]: a new object with the same tag, class,
    attributes and text. *)
Definition cloneNode (n : Node) : Js Node :=
  fun s => (Normal (mkNode (next_node_id s) (tagName n) (className n)
                      (attributes n) (textContent n)),
            set_next_node_id (S (next_node_id s)) s).

Definition set_className (v : string) (n : Node) : Node :=
  mkNode (node_id n) (tagName n) v (attributes n) (textContent n).
Definition set_textContent (v : string) (n : Node) : Node :=
  mkNode (node_id n) (tagName n) (className n) (attributes n) v.

(** [node.setAttribute(name, value)]: replaces the value of an attribute
    the node has, adds the attribute at the end otherwise. *)
Fixpoint put_attribute (name value : string) (l : list (string * string))
  : list (string * string) :=
  match l with
  | [] => [(name, value)]
  | (k, v) :: l' =>
      if String.eqb k name then (k, value) :: l'
      else (k, v) :: put_attribute name value l'
  end.

Definition setAttribute (name value : string) (n : Node) : Node :=
  mkNode (node_id n) (tagName n) (className n)
    (put_attribute name value (attributes n)) (textContent n).

(** [parent.appendChild(node)]: a node that is already in the tree is taken
    out of its place first, then the node becomes the last child. *)
Definition remove_child (i : nat) (e : Element) : Element :=
  set_children (filter (fun n => node_id n ≠ i) (children e)) e.

Definition add_child (n : Node) (e : Element) : Element :=
  set_children (children e ++ [n]) e.

Definition appendChild (l : loc) (n : Node) : Js unit :=
  modify (fun s =>
    set_elements (alter (add_child n) l
                    (remove_child (node_id n) <$> elements s)) s).

Definition addEventListener (l : loc) (type : string) (h : Handler)
  : Js unit :=
  update_element l (fun e => set_listeners (listeners e ++ [(type, h)]) e).

Definition window_addEventListener (type : string) (h : Handler) : Js unit :=
  modify (fun s => set_window_listeners (window_listeners s ++ [(type, h)]) s).

Definition setTimeout (t : Timer) (delay : Z) : Js unit :=
  modify (fun s => set_timeouts (timeouts s ++ [(t, delay)]) s).

(** ** Reading the fetched value *)

Definition await_fetch (fetched : FetchResult) : Js Response :=
  match fetched with
  | FetchRejected e => throw e
  | FetchResolved r => ret r
  end.

Definition await_json (r : Response) : Js JsValue :=
  match json r with
  | JsonRejected e => throw e
  | JsonParsed v => ret v
  end.

Fixpoint get_field (name : string) (fields : list (string * JsValue))
  : option JsValue :=
  match fields with
  | [] => None
  | (k, v) :: fields' =>
      if String.eqb k name then Some v else get_field name fields'
  end.

(** [data.achievements]: [None] is [undefined]; reading a property of
    [null] throws. *)
Definition get_achievements (data : JsValue) : Js (option JsValue) :=
  match data with
  | JsNull =>
      throw (mkError "TypeError"
               "Cannot read properties of null (reading 'achievements')")
  | JsObject fields => ret (get_field "achievements" fields)
  | _ => ret None
  end.

Definition truthy (v : JsValue) : bool :=
  match v with
  | JsNull => false
  | JsBool b => b
  | JsNumber n => negb (n =? 0)%Z
  | JsString s => negb (String.eqb s "")
  | JsArray _ => true
  | JsObject _ => true
  end.

(** [v || []] *)
Definition or_empty_array (v : option JsValue) : JsValue :=
  match v with
  | Some v => if truthy v then v else JsArray []
  | None => JsArray []
  end.

(** ** The class AchievementsTicker *)

(** The list the [catch] block of [loadAchievements] installs. *)
Definition fallback : list Achievement :=
  [ mkAchievement "fallback-1"
      "🏆 Microsoft Azure Developer Associate (AZ-204) - Scored 828/1000"
      "certification" 1;
    mkAchievement "fallback-2"
      "🚀 Created ARIA - AI-Powered Interview Platform"
      "project" 1;
    mkAchievement "fallback-3"
      "💼 1.4 Years Experience as Java Full Stack Developer"
      "experience" 1 ].

(** [loadAchievements], from the point where the fetch has settled to
    [fetched].  The value of [data.achievements || []] is stored in the
    field and sorted in place; when it is no array the call of [sort]
    throws, and the [catch] block overwrites the field. *)
Definition loadAchievements (fetched : FetchResult) : Js unit :=
  try_catch
    (response ← await_fetch fetched;
     (if negb (ok response)
      then throw (mkError "Error"
                    ("HTTP error! status: " +:+ pretty (status response)))
      else ret tt);;
     data ← await_json response;
     achievements ← get_achievements data;
     match or_empty_array achievements with
     | JsArray l =>
         modify (set_achievementsData l);;
         modify (fun s =>
           set_achievementsData
             (array_sort by_priority (achievementsData s)) s);;
         n ← gets (fun s => length (achievementsData s));
         console_write
           (console_log [ArgString "Loaded achievements:";
                         ArgNumber (Z.of_nat n)]);;
         data ← gets achievementsData;
         forEach_index 0 data (fun achievement index =>
           console_write
             (console_log
                [ArgString (pretty (index + 1)%Z +:+ ". "
                            +:+ text achievement +:+ " (Priority: "
                            +:+ pretty (priority achievement) +:+ ")")]))
     | _ =>
         throw (mkError "TypeError"
                  "this.achievementsData.sort is not a function")
     end)
    (fun error =>
       console_write
         (console_error [ArgString "Error loading achievements:";
                         ArgError error]);;
       modify (set_achievementsData fallback)).

Definition createTickerItems : Js (list Node) :=
  data ← gets achievementsData;
  array_map data (fun achievement =>
    tickerItem ← createElement "div";
    let tickerItem :=
      set_className ("ticker-item priority-"
                     +:+ pretty (priority achievement)) tickerItem in
    let tickerItem :=
      setAttribute "data-category" (category achievement) tickerItem in
    let tickerItem := setAttribute "data-id" (id achievement) tickerItem in
    let tickerItem := set_textContent (text achievement) tickerItem in
    let tickerItem := setAttribute "title" (text achievement) tickerItem in
    ret tickerItem).

Definition pauseAnimation : Js unit :=
  track ← gets tickerTrack;
  match track with
  | Some l =>
      update_element l (fun e =>
        set_style (set_animationPlayState "paused" (style e)) e)
  | None => ret tt
  end.

Definition resumeAnimation : Js unit :=
  track ← gets tickerTrack;
  match track with
  | Some l =>
      update_element l (fun e =>
        set_style (set_animationPlayState "running" (style e)) e)
  | None => ret tt
  end.

Definition handleResponsiveSpeed : Js unit :=
  width ← gets innerWidth;
  speed ← gets animationSpeed;
  let speed :=
    if (width <=? 480)%Z then 15%Z
    else if (width <=? 768)%Z then 20%Z
    else speed in
  track ← gets tickerTrack;
  match track with
  | Some l =>
      update_element l (fun e =>
        set_style (set_animationDuration (pretty speed +:+ "s") (style e)) e)
  | None => ret tt
  end.

Definition setupEventListeners : Js unit :=
  track ← gets tickerTrack;
  match track with
  | None => ret tt
  | Some l =>
      addEventListener l "mouseenter" OnMouseEnter;;
      addEventListener l "mouseleave" OnMouseLeave;;
      handleResponsiveSpeed;;
      window_addEventListener "resize" OnResize
  end.

Definition setupTicker : Js unit :=
  track ← getElementById "ticker-track";
  modify (set_tickerTrack track);;
  match track with
  | None =>
      console_write (console_error [ArgString "Ticker track element not found"])
  | Some l =>
      update_element l (set_children []);;
      tickerItems ← createTickerItems;
      forEach tickerItems (fun item => appendChild l item);;
      forEach tickerItems (fun item =>
        clone ← cloneNode item; appendChild l clone);;
      setupEventListeners
  end.

Definition startTicker : Js unit :=
  container ← querySelector ".achievements-ticker-container";
  match container with
  | Some c =>
      update_element c (fun e => set_style (set_opacity "1" (style e)) e);;
      modify (set_isLoaded true)
  | None => ret tt
  end;;
  setTimeout FadeInTrack 500.

(** The constructor up to the point where [init] waits for the fetch. *)
Definition constructor : Js unit :=
  modify (set_achievementsData []);;
  modify (set_tickerTrack None);;
  modify (set_isLoaded false);;
  modify (set_animationSpeed 30).

(** [init], from the point where the fetch has settled. *)
Definition init (fetched : FetchResult) : Js unit :=
  try_catch
    (loadAchievements fetched;;
     setupTicker;;
     startTicker)
    (fun error =>
       console_write
         (console_error
            [ArgString "Failed to initialize achievements ticker:";
             ArgError error])).

Definition updateAchievements (newAchievements : list Achievement)
  : Js unit :=
  modify (set_achievementsData newAchievements);;
  setupTicker.

Definition addAchievement (achievement : Achievement) : Js unit :=
  modify (fun s =>
    set_achievementsData (achievementsData s ++ [achievement]) s);;
  modify (fun s =>
    set_achievementsData (array_sort by_priority (achievementsData s)) s);;
  setupTicker.

Definition removeAchievement (achievementId : string) : Js unit :=
  modify (fun s =>
    set_achievementsData
      (filter (fun achievement => id achievement ≠ achievementId)
         (achievementsData s)) s);;
  setupTicker.

Definition filterByCategory (category' : string) : Js unit :=
  data ← gets achievementsData;
  let filteredData :=
    if String.eqb category' "all" then data
    else filter (fun achievement => category achievement = category') data in
  updateAchievements filteredData.

(** ** Events *)

Definition run_handler (h : Handler) : Js unit :=
  match h with
  | OnMouseEnter => pauseAnimation
  | OnMouseLeave => resumeAnimation
  | OnResize => handleResponsiveSpeed
  end.

Definition handlers_for (type : string) (ls : list (string * Handler))
  : list Handler :=
  (filter (fun p => p.1 = type) ls).*2.

(** An event of the given type fires on the element at [l]. *)
Definition element_event (l : loc) (type : string) : Js unit :=
  ls ← gets (fun s => from_option listeners [] (elements s !! l));
  forEach (handlers_for type ls) run_handler.

(** The viewport is resized to [width]. *)
Definition window_resize (width : Z) : Js unit :=
  modify (set_innerWidth width);;
  ls ← gets window_listeners;
  forEach (handlers_for "resize" ls) run_handler.

Definition run_timeout (t : Timer) : Js unit :=
  match t with
  | FadeInTrack =>
      track ← gets tickerTrack;
      match track with
      | Some l =>
          update_element l (fun e => set_style (set_opacity "1" (style e)) e)
      | None => ret tt
      end
  end.

(** ** What is observed *)

(** The children of the element the document finds under the id
    [ticker-track]; [None] when there is no such element. *)
Definition rendered (s : State) : option (list Node) :=
  l ← by_id s !! "ticker-track"; children <$> (elements s !! l).

Definition rendered_contents (s : State) : option (list NodeContent) :=
  map content <$> rendered s.

(** The container element exists. *)
Definition track_present (s : State) : Prop :=
  ∃ l, by_id s !! "ticker-track" = Some l ∧ is_Some (elements s !! l).

(** The item [createTickerItems] builds for a record, as the object with
    identity [i], and what it shows. *)
Definition ticker_item (i : nat) (a : Achievement) : Node :=
  mkNode i "div" ("ticker-item priority-" +:+ pretty (priority a))
    [("data-category", category a); ("data-id", id a); ("title", text a)]
    (text a).

Definition item_content (a : Achievement) : NodeContent :=
  content (ticker_item 0 a).

(** The items for a list of records, with consecutive identities from [k]. *)
Fixpoint items_from (k : nat) (l : list Achievement) : list Node :=
  match l with
  | [] => []
  | a :: l' => ticker_item k a :: items_from (S k) l'
  end.

(** Non-decreasing priority along a list of records. *)
Definition priority_le (a b : Achievement) : Prop :=
  (priority a <= priority b)%Z.

Definition priority_sorted (l : list Achievement) : Prop :=
  StronglySorted priority_le l.

#[global] Instance priority_le_dec : RelDecision priority_le.
Proof. intros a b. unfold priority_le. apply _. Defined.

#[global] Instance priority_le_trans : Transitive priority_le.
Proof. intros a b c. unfold priority_le. lia. Qed.

(** The store after a run of [appendChild] calls on the element at [l]. *)
Definition append_all (l : loc) (ns : list Node) (m : gmap loc Element)
  : gmap loc Element :=
  foldl (fun m n => alter (add_child n) l (remove_child (node_id n) <$> m))
    m ns.

(** The clones of a list of nodes, with consecutive identities from [k]. *)
Fixpoint clones_from (k : nat) (ns : list Node) : list Node :=
  match ns with
  | [] => []
  | n :: ns' =>
      mkNode k (tagName n) (className n) (attributes n) (textContent n)
      :: clones_from (S k) ns'
  end.

(** ** The life of the widget

    After construction the page calls the public methods and the browser
    delivers events and timeouts, in any order; [Init] is the completion of
    the fetch that the constructor started. *)
Inductive Action : Type :=
| Init (fetched : FetchResult)
| UpdateAchievements (newAchievements : list Achievement)
| AddAchievement (achievement : Achievement)
| RemoveAchievement (achievementId : string)
| FilterByCategory (category' : string)
| ElementEvent (l : loc) (type : string)
| WindowResize (width : Z)
| Timeout (t : Timer).

Definition perform (a : Action) : Js unit :=
  match a with
  | Init fetched => init fetched
  | UpdateAchievements newAchievements => updateAchievements newAchievements
  | AddAchievement achievement => addAchievement achievement
  | RemoveAchievement achievementId => removeAchievement achievementId
  | FilterByCategory category' => filterByCategory category'
  | ElementEvent l type => element_event l type
  | WindowResize width => window_resize width
  | Timeout t => run_timeout t
  end.

(** Every element the document finds is an object of the store. *)
Definition page_wf (s : State) : Prop :=
  (∀ i l, by_id s !! i = Some l → is_Some (elements s !! l))
  ∧ (∀ i l, by_selector s !! i = Some l → is_Some (elements s !! l)).

Inductive reachable : State → Prop :=
| reachable_new s0 : page_wf s0 → reachable (exec constructor s0)
| reachable_step s a : reachable s → reachable (exec (perform a) s).

(** The lines [loadAchievements] logs for the records it loaded, the
    first one numbered [i + 1]. *)
Fixpoint loaded_lines (i : Z) (l : list Achievement) : list LogEntry :=
  match l with
  | [] => []
  | achievement :: l' =>
      console_log
        [ArgString (pretty (i + 1)%Z +:+ ". " +:+ text achievement
                    +:+ " (Priority: " +:+ pretty (priority achievement)
                    +:+ ")")]
      :: loaded_lines (i + 1)%Z l'
  end.

(** The state [loadAchievements] ends in when the array [l] was fetched,
    and when [error] was thrown. *)
Definition load_success (l : list Achievement) (s : State) : State :=
  set_console
    (console s
     ++ console_log [ArgString "Loaded achievements:";
                     ArgNumber (Z.of_nat (length (array_sort by_priority l)))]
        :: loaded_lines 0 (array_sort by_priority l))
    (set_achievementsData (array_sort by_priority l) s).

Definition load_failure (error : JsError) (s : State) : State :=
  set_achievementsData fallback
    (set_console
       (console s
        ++ [console_error [ArgString "Error loading achievements:";
                           ArgError error]]) s).

(** A fetch that fails: the request is rejected, the status is not in
    200..299, or the body does not parse. *)
Definition fetch_fails (fetched : FetchResult) : Prop :=
  match fetched with
  | FetchRejected _ => True
  | FetchResolved r => ok r = false ∨ ∃ e, json r = JsonRejected e
  end.

(** The actions that end in a render. *)
Definition renders (a : Action) : bool :=
  match a with
  | Init _ | UpdateAchievements _ | AddAchievement _ | RemoveAchievement _
  | FilterByCategory _ => true
  | ElementEvent _ _ | WindowResize _ | Timeout _ => false
  end.

(** A run of rendered items shows records in non-decreasing priority. *)
Definition in_priority_order (cs : list NodeContent) : Prop :=
  ∃ d, cs = map item_content d ∧ priority_sorted d.

(** The caller of [updateAchievements] hands over an ordered list. *)
Definition update_in_order (a : Action) : Prop :=
  match a with
  | UpdateAchievements newAchievements => priority_sorted newAchievements
  | _ => True
  end.

(** ** A page and a payload to run the widget on *)

Definition empty_style : Style := mkStyle "" "" "".

(** A page with a track (at 0) and a container (at 1), 1024 pixels wide. *)
Definition example_page : State :=
  mkState [] None false 0
    (<[0 := mkElement [] empty_style []]>
       (<[1 := mkElement [] empty_style []]> ∅))
    {["ticker-track" := 0]}
    {[".achievements-ticker-container" := 1]}
    1024 [] [] 0 [].

(** The same page without the track. *)
Definition example_page_no_track : State :=
  mkState [] None false 0
    (<[1 := mkElement [] empty_style []]> ∅)
    ∅
    {[".achievements-ticker-container" := 1]}
    1024 [] [] 0 [].

Definition record_a : Achievement := mkAchievement "a" "X" "c" 2.
Definition record_b : Achievement := mkAchievement "b" "Y" "c" 1.

(** The payload
    [{"achievements":[{"id":"a","text":"X","category":"c","priority":2},
                      {"id":"b","text":"Y","category":"c","priority":1}]}] *)
Definition example_payload : JsValue :=
  JsObject [("achievements", JsArray [record_a; record_b])].

Definition example_fetch : FetchResult :=
  FetchResolved (mkResponse 200 (JsonParsed example_payload)).

(** The state with one style property blanked in every element: two
    states that agree after it differ in that property at most. *)
Definition erase_animationPlayState (s : State) : State :=
  set_elements
    ((fun e => set_style (set_animationPlayState "" (style e)) e)
     <$> elements s) s.

Definition erase_animationDuration (s : State) : State :=
  set_elements
    ((fun e => set_style (set_animationDuration "" (style e)) e)
     <$> elements s) s.

(** What holds of every state the widget can be in. *)
Definition widget_inv (s : State) : Prop :=
  animationSpeed s = 30%Z
  ∧ page_wf s
  ∧ (∀ l, tickerTrack s = Some l → is_Some (elements s !! l))
  ∧ (is_Some (tickerTrack s) → ("resize", OnResize) ∈ window_listeners s).

(** [this.tickerTrack.style.animationDuration] *)
Definition track_duration (s : State) : option string :=
  l ← tickerTrack s;
  (fun e => animationDuration (style e)) <$> (elements s !! l).

(** The rule of the specification: width ≤ 480 gives 15s, width ≤ 768 gives
    20s, any other width gives 30s. *)
Definition follows_speed_rule (width : Z) (s : State) : Prop :=
  ((width <= 480)%Z → track_duration s = Some "15s")
  ∧ ((480 < width <= 768)%Z → track_duration s = Some "20s")
  ∧ ((768 < width)%Z → track_duration s = Some "30s").

(** The collection and the children of every element are the same. *)
Definition same_collection_and_items (s s' : State) : Prop :=
  achievementsData s' = achievementsData s
  ∧ ∀ l, children <$> (elements s' !! l) = children <$> (elements s !! l).

(** The widget after construction on the example page, the fetch of the
    example payload completed. *)
Definition example_ready : State :=
  exec (perform (Init example_fetch)) (exec constructor example_page).

(** The store [setupTicker] leaves when the track is the element at [l]. *)
Definition setupTicker_elements (l : loc) (s : State) : gmap loc Element :=
  let k := next_node_id s in
  let data := achievementsData s in
  let speed :=
    if (innerWidth s <=? 480)%Z then 15%Z
    else if (innerWidth s <=? 768)%Z then 20%Z
    else animationSpeed s in
  alter (fun e =>
           set_style (set_animationDuration (pretty speed +:+ "s") (style e))
             e) l
    (alter (fun e =>
              set_listeners (listeners e ++ [("mouseleave", OnMouseLeave)]) e)
       l
       (alter (fun e =>
                 set_listeners
                   (listeners e ++ [("mouseenter", OnMouseEnter)]) e) l
          (append_all l (items_from (k + length data) data)
             (append_all l (items_from k data)
                (alter (set_children []) l (elements s)))))).

(** [this.tickerTrack.style.animationPlayState] and
    [this.tickerTrack.style.opacity] *)
Definition track_playState (s : State) : option string :=
  l ← tickerTrack s;
  (fun e => animationPlayState (style e)) <$> (elements s !! l).

Definition track_opacity (s : State) : option string :=
  l ← tickerTrack s;
  (fun e => opacity (style e)) <$> (elements s !! l).

(** Two states that differ in the style of elements at most: every field
    but the store is the same, and every element has the same children and
    the same listeners. *)
Definition only_styles_differ (s s' : State) : Prop :=
  set_elements ∅ s' = set_elements ∅ s
  ∧ ∀ l, (fun e => (children e, listeners e)) <$> (elements s' !! l)
         = (fun e => (children e, listeners e)) <$> (elements s !! l).

(** The listeners one render puts on the track. *)
Definition hover_listeners : list (string * Handler) :=
  [("mouseenter", OnMouseEnter); ("mouseleave", OnMouseLeave)].

(** The integers a JavaScript number holds exactly
    ([Number.isSafeInteger]).  A template literal prints them in decimal,
    as [pretty] does; beyond them a number is rounded, and from 10^21 it
    is printed with an exponent, so what the embedding says of a printed
    number is said of safe integers. *)
Definition safe_integer (n : Z) : Prop :=
  (- (2 ^ 53 - 1) <= n <= 2 ^ 53 - 1)%Z.

(** A third record for the examples, of another category. *)
Definition record_p : Achievement := mkAchievement "p" "W" "project" 2.

(** * Properties *)

(** ** The sort *)

Section SortFacts.
Implicit Types (l : list Achievement) (x : Achievement).

Lemma sort_insert_perm x l : sort_insert by_priority x l ≡ₚ x :: l.
Proof.
  induction l as [|y l IH]; simpl; [done|].
  destruct (0 <? by_priority x y)%Z; [|done].
  rewrite IH. apply Permutation_swap.
Qed.

Lemma array_sort_perm l : array_sort by_priority l ≡ₚ l.
Proof.
  induction l as [|x l IH]; simpl; [done|].
  by rewrite sort_insert_perm, IH.
Qed.

Lemma sort_insert_sorted x l :
  priority_sorted l → priority_sorted (sort_insert by_priority x l).
Proof.
  unfold priority_sorted.
  induction l as [|y l IH]; simpl; intros Hs.
  - repeat constructor.
  - apply StronglySorted_cons in Hs as [Hy Hl].
    destruct (0 <? by_priority x y)%Z eqn:E.
    + apply StronglySorted_cons. split; [|by apply IH].
      apply Z.ltb_lt in E. unfold by_priority in E.
      rewrite (sort_insert_perm x l). constructor; [|done].
      unfold priority_le. lia.
    + apply Z.ltb_ge in E. unfold by_priority in E.
      assert (Hxy : priority_le x y) by (unfold priority_le; lia).
      apply StronglySorted_cons. split.
      * constructor; [done|].
        eapply Forall_impl; [exact Hy|].
        intros z Hz. by transitivity y.
      * by apply StronglySorted_cons.
Qed.

Lemma array_sort_sorted l : priority_sorted (array_sort by_priority l).
Proof.
  induction l as [|x l IH]; simpl; [constructor|].
  by apply sort_insert_sorted.
Qed.

(** A list that is in order already is left as it is. *)
Lemma array_sort_id l : priority_sorted l → array_sort by_priority l = l.
Proof.
  unfold priority_sorted.
  induction l as [|x l IH]; simpl; intros Hs; [done|].
  apply StronglySorted_cons in Hs as [Hx Hl].
  rewrite (IH Hl). destruct l as [|y l]; simpl; [done|].
  apply Forall_cons in Hx as [Hxy _]. unfold priority_le in Hxy.
  destruct (0 <? by_priority x y)%Z eqn:E; [|done].
  apply Z.ltb_lt in E. unfold by_priority in E. lia.
Qed.

(** Filtering commutes with the insertion into an ordered list, ... *)
Lemma sort_insert_filter (P : Achievement → Prop) `{!∀ a, Decision (P a)}
    x l :
  priority_sorted l →
  filter P (sort_insert by_priority x l)
  = if decide (P x) then sort_insert by_priority x (filter P l)
    else filter P l.
Proof.
  unfold priority_sorted.
  induction l as [|y l IH]; intros Hs.
  - simpl. rewrite filter_cons, filter_nil. by destruct (decide (P x)).
  - apply StronglySorted_cons in Hs as [Hy Hl]. simpl.
    destruct (0 <? by_priority x y)%Z eqn:E.
    + rewrite !(filter_cons _ y), (IH Hl).
      destruct (decide (P y)), (decide (P x)); simpl; by rewrite ?E.
    + rewrite (filter_cons _ x), !(filter_cons _ y).
      destruct (decide (P x)) as [Hx|Hx]; [|done].
      destruct (decide (P y)) as [Hpy|Hpy]; simpl; [by rewrite E|].
      apply Z.ltb_ge in E. unfold by_priority in E.
      clear IH Hl. induction l as [|z l IH].
      * by rewrite filter_nil.
      * apply Forall_cons in Hy as [Hyz Hy].
        rewrite !(filter_cons _ z).
        destruct (decide (P z)); simpl; [|by apply IH].
        unfold priority_le in Hyz.
        destruct (0 <? by_priority x z)%Z eqn:E'; [|done].
        apply Z.ltb_lt in E'. unfold by_priority in E'. lia.
Qed.

(** ... and so with the sort. *)
Lemma array_sort_filter (P : Achievement → Prop) `{!∀ a, Decision (P a)} l :
  filter P (array_sort by_priority l) = array_sort by_priority (filter P l).
Proof.
  induction l as [|x l IH]; simpl; [done|].
  rewrite sort_insert_filter by apply array_sort_sorted.
  rewrite filter_cons, IH. by destruct (decide (P x)).
Qed.

(** Stability: the records of one priority keep their order. *)
Lemma array_sort_stable (p : Z) l :
  filter (λ a, priority a = p) (array_sort by_priority l)
  = filter (λ a, priority a = p) l.
Proof.
  rewrite array_sort_filter. apply array_sort_id.
  unfold priority_sorted.
  induction l as [|x l IH]; [constructor|].
  rewrite filter_cons. destruct (decide (priority x = p)) as [Hx|]; [|done].
  apply StronglySorted_cons. split; [|done].
  apply Forall_forall. intros y [Hy _]%list_elem_of_filter.
  unfold priority_le. lia.
Qed.

Lemma filter_sorted (P : Achievement → Prop) `{!∀ a, Decision (P a)} l :
  priority_sorted l → priority_sorted (filter P l).
Proof.
  unfold priority_sorted.
  induction l as [|x l IH]; intros Hs; [constructor|].
  apply StronglySorted_cons in Hs as [Hx Hl].
  rewrite filter_cons. destruct (decide (P x)); [|by apply IH].
  apply StronglySorted_cons. split; [|by apply IH].
  apply Forall_forall. intros y [_ Hy]%list_elem_of_filter.
  by eapply Forall_forall in Hx.
Qed.
End SortFacts.

(** ** Running the monad *)

Ltac js_unfold :=
  unfold exec, completion, mbind, mret, Js_bind, Js_ret, bind, ret, gets,
    modify, throw, try_catch, console_write, update_element, appendChild,
    getElementById, querySelector, addEventListener,
    window_addEventListener, setTimeout, createElement, cloneNode in *.

Lemma bind_eq {A B} (m : Js A) (k : A → Js B) s a s' :
  m s = (Normal a, s') → (m ≫= k) s = k a s'.
Proof. intros H. unfold mbind, Js_bind, bind. by rewrite H. Qed.

Lemma state_eta s :
  mkState (achievementsData s) (tickerTrack s) (isLoaded s)
    (animationSpeed s) (elements s) (by_id s) (by_selector s) (innerWidth s)
    (window_listeners s) (timeouts s) (next_node_id s) (console s) = s.
Proof. by destruct s. Qed.

(** ** createTickerItems and the two loops of setupTicker *)

Lemma array_map_items l s :
  array_map l (fun achievement =>
    tickerItem ← createElement "div";
    let tickerItem :=
      set_className ("ticker-item priority-"
                     +:+ pretty (priority achievement)) tickerItem in
    let tickerItem :=
      setAttribute "data-category" (category achievement) tickerItem in
    let tickerItem := setAttribute "data-id" (id achievement) tickerItem in
    let tickerItem := set_textContent (text achievement) tickerItem in
    let tickerItem := setAttribute "title" (text achievement) tickerItem in
    mret tickerItem) s
  = (Normal (items_from (next_node_id s) l),
     set_next_node_id (next_node_id s + length l) s).
Proof.
  revert s. induction l as [|a l IH]; intros s.
  - simpl. js_unfold. unfold set_next_node_id.
    rewrite Nat.add_0_r. by rewrite state_eta.
  - cbn [array_map]. js_unfold. cbn. rewrite IH. cbn.
    unfold set_next_node_id; cbn. do 2 f_equal. lia.
Qed.

Lemma createTickerItems_eq s :
  createTickerItems s
  = (Normal (items_from (next_node_id s) (achievementsData s)),
     set_next_node_id (next_node_id s + length (achievementsData s)) s).
Proof.
  unfold createTickerItems.
  erewrite bind_eq by (unfold gets; reflexivity).
  apply array_map_items.
Qed.

Lemma forEach_appendChild l ns s :
  forEach ns (fun item => appendChild l item) s
  = (Normal tt, set_elements (append_all l ns (elements s)) s).
Proof.
  revert s. induction ns as [|n ns IH]; intros s.
  - simpl. js_unfold. unfold set_elements. by rewrite state_eta.
  - cbn [forEach]. erewrite bind_eq by (js_unfold; reflexivity).
    rewrite IH. by destruct s.
Qed.

Lemma forEach_clone_appendChild l ns s :
  forEach ns (fun item => clone ← cloneNode item; appendChild l clone) s
  = (Normal tt,
     set_next_node_id (next_node_id s + length ns)
       (set_elements
          (append_all l (clones_from (next_node_id s) ns) (elements s)) s)).
Proof.
  revert s. induction ns as [|n ns IH]; intros s.
  - simpl. js_unfold. unfold set_elements, set_next_node_id; cbn.
    rewrite Nat.add_0_r. by rewrite state_eta.
  - cbn [forEach]. erewrite bind_eq by (js_unfold; reflexivity).
    rewrite IH. destruct s; cbn. unfold set_next_node_id; cbn.
    do 2 f_equal. lia.
Qed.

Lemma clones_from_items k k' l :
  clones_from k (items_from k' l) = items_from k l.
Proof.
  revert k k'. induction l as [|a l IH]; intros k k'; simpl; [done|].
  by rewrite IH.
Qed.

Lemma items_from_ids k l : node_id <$> items_from k l = seq k (length l).
Proof.
  revert k. induction l as [|a l IH]; intros k; simpl; [done|].
  by rewrite <- IH.
Qed.

Lemma items_from_contents k l :
  map content (items_from k l) = map item_content l.
Proof.
  revert k. induction l as [|a l IH]; intros k; simpl; [done|].
  by rewrite IH.
Qed.

Lemma items_from_length k l : length (items_from k l) = length l.
Proof. revert k. induction l; intros; simpl; auto. Qed.

Lemma filter_all {A} (P : A → Prop) `{!∀ a, Decision (P a)} (l : list A) :
  Forall P l → filter P l = l.
Proof.
  induction 1 as [|x l Hx _ IH]; [done|].
  by rewrite filter_cons_True, IH.
Qed.

Lemma filter_none {A} (P : A → Prop) `{!∀ a, Decision (P a)} (l : list A) :
  Forall (λ a, ¬ P a) l → filter P l = [].
Proof.
  induction 1 as [|x l Hx _ IH]; [done|].
  by rewrite filter_cons_False.
Qed.

Lemma append_all_dom l ns (m : gmap loc Element) :
  dom (append_all l ns m) = dom m.
Proof.
  revert m. induction ns as [|n ns IH]; intros m; simpl; [done|].
  fold (append_all l ns
          (alter (add_child n) l (remove_child (node_id n) <$> m))).
  by rewrite IH, dom_alter_L, dom_fmap_L.
Qed.

(** Appending nodes that are new to the element, one after the other, puts
    them behind its children in the same order. *)
Lemma append_all_lookup l ns (m : gmap loc Element) e :
  m !! l = Some e →
  NoDup (node_id <$> ns) →
  (∀ n, n ∈ ns → node_id n ∉ node_id <$> children e) →
  append_all l ns m !! l = Some (set_children (children e ++ ns) e).
Proof.
  revert m e. induction ns as [|n ns IH]; intros m e Hl Hnd Hfresh.
  - simpl. rewrite app_nil_r. by destruct e.
  - simpl.
    fold (append_all l ns
            (alter (add_child n) l (remove_child (node_id n) <$> m))).
    rewrite fmap_cons in Hnd. apply NoDup_cons in Hnd as [Hn Hnd].
    assert (Hfilter :
      filter (λ n0, node_id n0 ≠ node_id n) (children e) = children e).
    { apply filter_all. apply Forall_forall. intros c Hc Heq.
      apply (Hfresh n); [left|].
      rewrite <- Heq. by apply list_elem_of_fmap_2. }
    erewrite (IH _ (set_children (children e ++ [n]) e)).
    + simpl. by rewrite <- app_assoc.
    + rewrite lookup_alter_eq, lookup_fmap, Hl. simpl.
      unfold add_child, remove_child, set_children; simpl.
      by rewrite Hfilter.
    + done.
    + intros n' Hn'. simpl. rewrite fmap_app, elem_of_app.
      intros [Hin|Hin].
      * by apply (Hfresh n'); [right|].
      * simpl in Hin. apply list_elem_of_singleton in Hin.
        apply Hn. rewrite <- Hin. by apply list_elem_of_fmap_2.
Qed.

(** The elements away from [l] keep their style and listeners. *)
Lemma append_all_style l ns (m : gmap loc Element) l' :
  style <$> (append_all l ns m !! l') = style <$> (m !! l').
Proof.
  revert m. induction ns as [|n ns IH]; intros m; simpl; [done|].
  fold (append_all l ns
          (alter (add_child n) l (remove_child (node_id n) <$> m))).
  rewrite IH, lookup_alter.
  case_decide; subst; rewrite lookup_fmap; by destruct (m !! l').
Qed.

Lemma append_all_listeners l ns (m : gmap loc Element) l' :
  listeners <$> (append_all l ns m !! l') = listeners <$> (m !! l').
Proof.
  revert m. induction ns as [|n ns IH]; intros m; simpl; [done|].
  fold (append_all l ns
          (alter (add_child n) l (remove_child (node_id n) <$> m))).
  rewrite IH, lookup_alter.
  case_decide; subst; rewrite lookup_fmap; by destruct (m !! l').
Qed.

(** ** setupTicker in closed form *)

Lemma handleResponsiveSpeed_eq s :
  handleResponsiveSpeed s
  = (Normal tt,
     match tickerTrack s with
     | Some l =>
         set_elements
           (alter (fun e =>
                     set_style
                       (set_animationDuration
                          (pretty (if (innerWidth s <=? 480)%Z then 15%Z
                                   else if (innerWidth s <=? 768)%Z then 20%Z
                                   else animationSpeed s) +:+ "s")
                          (style e)) e) l (elements s)) s
     | None => s
     end).
Proof.
  unfold handleResponsiveSpeed.
  erewrite bind_eq by (unfold gets; reflexivity).
  erewrite bind_eq by (unfold gets; reflexivity).
  erewrite bind_eq by (unfold gets; reflexivity).
  by destruct (tickerTrack s).
Qed.

Lemma setupEventListeners_eq s l :
  tickerTrack s = Some l →
  setupEventListeners s
  = (Normal tt,
     set_window_listeners (window_listeners s ++ [("resize", OnResize)])
       (set_elements
          (alter (fun e =>
                    set_style
                      (set_animationDuration
                         (pretty (if (innerWidth s <=? 480)%Z then 15%Z
                                  else if (innerWidth s <=? 768)%Z then 20%Z
                                  else animationSpeed s) +:+ "s")
                         (style e)) e) l
             (alter (fun e =>
                       set_listeners
                         (listeners e ++ [("mouseleave", OnMouseLeave)]) e) l
                (alter (fun e =>
                          set_listeners
                            (listeners e ++ [("mouseenter", OnMouseEnter)]) e)
                   l (elements s)))) s)).
Proof.
  intros Hl. unfold setupEventListeners.
  erewrite bind_eq by (unfold gets; reflexivity).
  rewrite Hl.
  erewrite bind_eq by (unfold addEventListener, update_element, modify;
                       reflexivity).
  erewrite bind_eq by (unfold addEventListener, update_element, modify;
                       reflexivity).
  erewrite bind_eq by apply handleResponsiveSpeed_eq.
  cbn [tickerTrack set_elements]. rewrite Hl.
  reflexivity.
Qed.

Lemma setupTicker_present s l :
  by_id s !! "ticker-track" = Some l →
  setupTicker s
  = (Normal tt,
     mkState (achievementsData s) (Some l) (isLoaded s) (animationSpeed s)
       (setupTicker_elements l s) (by_id s) (by_selector s) (innerWidth s)
       (window_listeners s ++ [("resize", OnResize)]) (timeouts s)
       (next_node_id s + length (achievementsData s)
        + length (achievementsData s))
       (console s)).
Proof.
  intros Hl. unfold setupTicker.
  erewrite bind_eq by (unfold getElementById, gets; rewrite Hl; reflexivity).
  erewrite bind_eq by (unfold modify; reflexivity).
  erewrite bind_eq by (unfold update_element, modify; reflexivity).
  erewrite bind_eq by apply createTickerItems_eq.
  erewrite bind_eq by apply forEach_appendChild.
  erewrite bind_eq by apply forEach_clone_appendChild.
  rewrite (setupEventListeners_eq _ l) by reflexivity.
  destruct s. unfold setupTicker_elements.
  cbn [achievementsData tickerTrack isLoaded animationSpeed elements by_id
       by_selector innerWidth window_listeners timeouts next_node_id console
       set_achievementsData set_tickerTrack set_elements set_next_node_id
       set_window_listeners].
  rewrite clones_from_items, items_from_length.
  reflexivity.
Qed.

Lemma setupTicker_absent s :
  by_id s !! "ticker-track" = None →
  setupTicker s
  = (Normal tt,
     set_console
       (console s
        ++ [console_error [ArgString "Ticker track element not found"]])
       (set_tickerTrack None s)).
Proof.
  intros Hl. unfold setupTicker.
  erewrite bind_eq by (unfold getElementById, gets; rewrite Hl; reflexivity).
  erewrite bind_eq by (unfold modify; reflexivity).
  reflexivity.
Qed.

(** ** What a render leaves in the track *)

Lemma items_from_fresh k n l l' :
  k + length l ≤ n →
  ∀ x, x ∈ items_from n l' → node_id x ∉ node_id <$> items_from k l.
Proof.
  intros Hle x Hx. rewrite items_from_ids.
  assert (Hid : node_id x ∈ node_id <$> items_from n l')
    by by apply list_elem_of_fmap_2.
  rewrite items_from_ids in Hid.
  apply elem_of_seq in Hid. rewrite elem_of_seq. lia.
Qed.

Lemma setupTicker_elements_lookup s l e :
  elements s !! l = Some e →
  setupTicker_elements l s !! l
  = Some (mkElement
            (items_from (next_node_id s) (achievementsData s)
             ++ items_from (next_node_id s + length (achievementsData s))
                  (achievementsData s))
            (set_animationDuration
               (pretty (if (innerWidth s <=? 480)%Z then 15%Z
                        else if (innerWidth s <=? 768)%Z then 20%Z
                        else animationSpeed s) +:+ "s") (style e))
            (listeners e ++ [("mouseenter", OnMouseEnter)]
             ++ [("mouseleave", OnMouseLeave)])).
Proof.
  intros He. unfold setupTicker_elements. cbv zeta.
  rewrite !lookup_alter_eq.
  erewrite (append_all_lookup l _ _
              (set_children (items_from (next_node_id s) (achievementsData s))
                 e)).
  - simpl. by rewrite <- app_assoc.
  - erewrite (append_all_lookup l _ _ (set_children [] e)).
    + done.
    + by rewrite lookup_alter_eq, He.
    + rewrite items_from_ids. apply NoDup_seq.
    + intros n _. simpl. apply not_elem_of_nil.
  - rewrite items_from_ids. apply NoDup_seq.
  - simpl. by apply items_from_fresh.
Qed.

Lemma setupTicker_elements_dom s l :
  dom (setupTicker_elements l s) = dom (elements s).
Proof.
  unfold setupTicker_elements. cbv zeta.
  by rewrite !dom_alter_L, !append_all_dom, dom_alter_L.
Qed.

Lemma setupTicker_rendered s :
  track_present s →
  rendered (exec setupTicker s)
  = Some (items_from (next_node_id s) (achievementsData s)
          ++ items_from (next_node_id s + length (achievementsData s))
               (achievementsData s)).
Proof.
  intros (l & Hl & [e He]). unfold exec, rendered.
  rewrite (setupTicker_present s l Hl). cbn. rewrite Hl. cbn.
  by rewrite (setupTicker_elements_lookup s l e He).
Qed.

Lemma setupTicker_normal s : completion setupTicker s = Normal tt.
Proof.
  unfold completion. destruct (by_id s !! "ticker-track") as [l|] eqn:Hl.
  - by rewrite (setupTicker_present s l Hl).
  - by rewrite (setupTicker_absent s Hl).
Qed.

Lemma setupTicker_data s :
  achievementsData (exec setupTicker s) = achievementsData s.
Proof.
  unfold exec. destruct (by_id s !! "ticker-track") as [l|] eqn:Hl.
  - by rewrite (setupTicker_present s l Hl).
  - by rewrite (setupTicker_absent s Hl).
Qed.

Lemma setupTicker_track_present s :
  track_present s → track_present (exec setupTicker s).
Proof.
  intros (l & Hl & He). exists l. unfold exec.
  rewrite (setupTicker_present s l Hl). cbn. split; [done|].
  apply elem_of_dom. rewrite setupTicker_elements_dom. by apply elem_of_dom.
Qed.

(** ** The public methods are an update of the field and a render *)

Lemma updateAchievements_eq l s :
  updateAchievements l s = setupTicker (set_achievementsData l s).
Proof. reflexivity. Qed.

Lemma addAchievement_eq r s :
  addAchievement r s
  = setupTicker
      (set_achievementsData
         (array_sort by_priority (achievementsData s ++ [r])) s).
Proof. reflexivity. Qed.

Lemma removeAchievement_eq i s :
  removeAchievement i s
  = setupTicker
      (set_achievementsData
         (filter (λ a, id a ≠ i) (achievementsData s)) s).
Proof. reflexivity. Qed.

Lemma filterByCategory_eq c s :
  filterByCategory c s
  = setupTicker
      (set_achievementsData
         (if String.eqb c "all" then achievementsData s
          else filter (λ a, category a = c) (achievementsData s)) s).
Proof. reflexivity. Qed.

Lemma track_present_set_data d s :
  track_present s → track_present (set_achievementsData d s).
Proof. done. Qed.

(** ** loadAchievements *)

Lemma forEach_index_log i l s :
  forEach_index i l (fun achievement index =>
    console_write
      (console_log
         [ArgString (pretty (index + 1)%Z +:+ ". "
                     +:+ text achievement +:+ " (Priority: "
                     +:+ pretty (priority achievement) +:+ ")")])) s
  = (Normal tt, set_console (console s ++ loaded_lines i l) s).
Proof.
  revert i s. induction l as [|a l IH]; intros i s.
  - simpl. js_unfold. unfold set_console. by rewrite app_nil_r, state_eta.
  - cbn [forEach_index]. erewrite bind_eq by (js_unfold; reflexivity).
    rewrite IH. unfold set_console; cbn. by rewrite <- app_assoc.
Qed.

Lemma loadAchievements_array st data l s :
  ok (mkResponse st (JsonParsed data)) = true →
  (∃ v, get_achievements data = mret v ∧ or_empty_array v = JsArray l) →
  loadAchievements (FetchResolved (mkResponse st (JsonParsed data))) s
  = (Normal tt, load_success l s).
Proof.
  intros Hok (v & Hv & Hl). unfold loadAchievements, try_catch.
  erewrite bind_eq by (simpl; js_unfold; reflexivity).
  rewrite Hok. cbn [negb].
  erewrite bind_eq by (js_unfold; reflexivity).
  erewrite bind_eq by (simpl; js_unfold; reflexivity).
  rewrite Hv.
  erewrite bind_eq by (js_unfold; reflexivity).
  rewrite Hl.
  erewrite bind_eq by (js_unfold; reflexivity).
  erewrite bind_eq by (js_unfold; reflexivity).
  erewrite bind_eq by (js_unfold; reflexivity).
  erewrite bind_eq by (js_unfold; reflexivity).
  erewrite bind_eq by (js_unfold; reflexivity).
  rewrite forEach_index_log. unfold load_success, set_console; cbn.
  by rewrite <- app_assoc.
Qed.

(** Whatever the fetch settles to, [loadAchievements] returns normally, in
    one of two states. *)
Lemma loadAchievements_cases fetched s :
  (∃ l, loadAchievements fetched s = (Normal tt, load_success l s))
  ∨ (∃ e, loadAchievements fetched s = (Normal tt, load_failure e s)).
Proof.
  destruct fetched as [e|[st [e|data]]].
  - right. by exists e.
  - right. destruct (ok (mkResponse st (JsonRejected e))) eqn:Hok.
    + exists e. unfold loadAchievements, try_catch.
      erewrite bind_eq by (simpl; js_unfold; reflexivity).
      by rewrite Hok.
    + eexists. unfold loadAchievements, try_catch.
      erewrite bind_eq by (simpl; js_unfold; reflexivity).
      by rewrite Hok.
  - destruct (ok (mkResponse st (JsonParsed data))) eqn:Hok.
    2:{ right. eexists. unfold loadAchievements, try_catch.
        erewrite bind_eq by (simpl; js_unfold; reflexivity).
        by rewrite Hok. }
    assert (Hok' : ok (mkResponse st (JsonParsed data)) = true) by done.
    destruct data as [|b|n|str|l|fields].
    + right. eexists. unfold loadAchievements, try_catch.
      erewrite bind_eq by (simpl; js_unfold; reflexivity).
      by rewrite Hok.
    + left. exists []. apply loadAchievements_array; [done|].
      by exists None.
    + left. exists []. apply loadAchievements_array; [done|].
      by exists None.
    + left. exists []. apply loadAchievements_array; [done|].
      by exists None.
    + left. exists []. apply loadAchievements_array; [done|].
      by exists None.
    + destruct (or_empty_array (get_field "achievements" fields))
        as [|b|n|str|l|fields'] eqn:Hv.
      5:{ left. exists l. apply loadAchievements_array; [done|].
          by exists (get_field "achievements" fields). }
      all: right; eexists; unfold loadAchievements, try_catch;
        erewrite bind_eq by (simpl; js_unfold; reflexivity);
        rewrite Hok; cbn [negb];
        erewrite bind_eq by (js_unfold; reflexivity);
        erewrite bind_eq by (simpl; js_unfold; reflexivity);
        erewrite bind_eq by (simpl; js_unfold; reflexivity);
        rewrite Hv; reflexivity.
Qed.

Lemma loadAchievements_normal fetched s :
  completion (loadAchievements fetched) s = Normal tt.
Proof.
  unfold completion.
  by destruct (loadAchievements_cases fetched s) as [[l ->]|[e ->]].
Qed.

Lemma loadAchievements_fails fetched s :
  fetch_fails fetched →
  ∃ e, loadAchievements fetched s = (Normal tt, load_failure e s).
Proof.
  destruct fetched as [e|r]; simpl.
  - intros _. by exists e.
  - intros [Hok|[e He]].
    + eexists. unfold loadAchievements, try_catch.
      erewrite bind_eq by (simpl; js_unfold; reflexivity).
      by rewrite Hok.
    + destruct (ok r) eqn:Hok.
      * exists e. unfold loadAchievements, try_catch.
        erewrite bind_eq by (simpl; js_unfold; reflexivity).
        rewrite Hok. cbn [negb].
        erewrite bind_eq by (js_unfold; reflexivity).
        unfold await_json. by rewrite He.
      * eexists. unfold loadAchievements, try_catch.
        erewrite bind_eq by (simpl; js_unfold; reflexivity).
        by rewrite Hok.
Qed.

Lemma loadAchievements_sorted fetched s :
  priority_sorted (achievementsData (exec (loadAchievements fetched) s)).
Proof.
  unfold exec.
  destruct (loadAchievements_cases fetched s) as [[l ->]|[e ->]]; simpl.
  - apply array_sort_sorted.
  - unfold fallback, priority_sorted.
    repeat (apply StronglySorted_cons; split;
            [repeat constructor; unfold priority_le; simpl; lia|]).
    constructor.
Qed.

(** ** startTicker and init *)

Lemma startTicker_eq s :
  startTicker s
  = (Normal tt,
     set_timeouts (timeouts s ++ [(FadeInTrack, 500%Z)])
       match by_selector s !! ".achievements-ticker-container" with
       | Some c =>
           set_isLoaded true
             (set_elements
                (alter (fun e => set_style (set_opacity "1" (style e)) e) c
                   (elements s)) s)
       | None => s
       end).
Proof.
  unfold startTicker.
  erewrite bind_eq by (js_unfold; reflexivity).
  destruct (by_selector s !! ".achievements-ticker-container"); reflexivity.
Qed.

Lemma init_eq fetched s :
  init fetched s
  = (Normal tt,
     exec startTicker (exec setupTicker (exec (loadAchievements fetched) s))).
Proof.
  unfold init, try_catch.
  pose proof (loadAchievements_normal fetched s) as Hload.
  unfold completion in Hload.
  destruct (loadAchievements fetched s) as [c1 s1] eqn:E1.
  simpl in Hload. subst c1.
  erewrite bind_eq by exact E1.
  pose proof (setupTicker_normal s1) as Hsetup. unfold completion in Hsetup.
  destruct (setupTicker s1) as [c2 s2] eqn:E2. simpl in Hsetup. subst c2.
  erewrite bind_eq by exact E2.
  unfold exec. rewrite E1. simpl. rewrite E2. simpl.
  by rewrite startTicker_eq.
Qed.

Lemma startTicker_rendered s : rendered (exec startTicker s) = rendered s.
Proof.
  unfold exec. rewrite startTicker_eq. unfold rendered. cbn.
  destruct (by_selector s !! ".achievements-ticker-container") as [c|];
    [|done].
  cbn. destruct (by_id s !! "ticker-track") as [l|]; [|done]. cbn.
  rewrite lookup_alter. case_decide; [|done].
  subst. by destruct (elements s !! l).
Qed.

Lemma startTicker_data s :
  achievementsData (exec startTicker s) = achievementsData s.
Proof.
  unfold exec. rewrite startTicker_eq. cbn.
  by destruct (by_selector s !! ".achievements-ticker-container").
Qed.

Lemma loadAchievements_track_present fetched s :
  track_present s → track_present (exec (loadAchievements fetched) s).
Proof.
  unfold exec.
  by destruct (loadAchievements_cases fetched s) as [[l ->]|[e ->]].
Qed.

Lemma setupTicker_rendered_contents s :
  track_present s →
  rendered_contents (exec setupTicker s)
  = Some (map item_content (achievementsData s)
          ++ map item_content (achievementsData s)).
Proof.
  intros Hs. unfold rendered_contents.
  rewrite (setupTicker_rendered s Hs). cbn.
  by rewrite map_app, !items_from_contents.
Qed.

(** Every action that renders leaves the two copies of the collection it
    ends with in the track. *)
Lemma perform_rendered a s :
  renders a = true →
  track_present s →
  rendered_contents (exec (perform a) s)
  = Some (map item_content (achievementsData (exec (perform a) s))
          ++ map item_content (achievementsData (exec (perform a) s))).
Proof.
  intros Ha Hs. destruct a; try discriminate; unfold exec; cbn [perform].
  - rewrite init_eq. cbn [snd]. unfold rendered_contents.
    rewrite startTicker_rendered, startTicker_data.
    fold (rendered_contents (exec setupTicker
                               (exec (loadAchievements fetched) s))).
    rewrite setupTicker_rendered_contents
      by by apply loadAchievements_track_present.
    by rewrite setupTicker_data.
  - rewrite updateAchievements_eq.
    fold (exec setupTicker (set_achievementsData newAchievements s)).
    by rewrite setupTicker_rendered_contents, setupTicker_data.
  - rewrite addAchievement_eq.
    match goal with |- context [setupTicker ?s'] =>
      fold (exec setupTicker s') end.
    by rewrite setupTicker_rendered_contents, setupTicker_data.
  - rewrite removeAchievement_eq.
    match goal with |- context [setupTicker ?s'] =>
      fold (exec setupTicker s') end.
    by rewrite setupTicker_rendered_contents, setupTicker_data.
  - rewrite filterByCategory_eq.
    match goal with |- context [setupTicker ?s'] =>
      fold (exec setupTicker s') end.
    by rewrite setupTicker_rendered_contents, setupTicker_data.
Qed.

Lemma example_page_track_present : track_present example_page.
Proof. exists 0. split; [reflexivity|]. by eexists. Qed.

(** ** The claims *)

(** C1.  For every collection and every render where the container element
    exists, the container afterwards holds exactly twice as many elements
    as the collection has records: first one element per record, in the
    order of the collection, then a clone of each of these elements in the
    same order; a clone shows what its original shows and is an object of
    its own. *)
Theorem render_holds_two_copies (s : State) :
  track_present s →
  ∃ originals clones,
    rendered (exec setupTicker s) = Some (originals ++ clones)
    ∧ map content originals = map item_content (achievementsData s)
    ∧ map content clones = map content originals
    ∧ NoDup (node_id <$> originals ++ clones)
    ∧ length (originals ++ clones) = 2 * length (achievementsData s).
Proof.
  intros Hs.
  exists (items_from (next_node_id s) (achievementsData s)),
    (items_from (next_node_id s + length (achievementsData s))
       (achievementsData s)).
  split; [by apply setupTicker_rendered|].
  rewrite !items_from_contents, fmap_app, !items_from_ids, length_app,
    !items_from_length.
  repeat split; [|lia].
  apply NoDup_app. repeat split; try apply NoDup_seq.
  intros x. rewrite !elem_of_seq. lia.
Qed.

Lemma render_holds_two_copies_witness :
  track_present (set_achievementsData [record_b; record_a] example_page)
  ∧ ∃ originals clones,
      rendered (exec setupTicker
                  (set_achievementsData [record_b; record_a] example_page))
      = Some (originals ++ clones)
      ∧ map content originals = map item_content [record_b; record_a]
      ∧ map content clones = map content originals
      ∧ NoDup (node_id <$> originals ++ clones)
      ∧ length (originals ++ clones) = 2 * 2.
Proof.
  split.
  - exists 0. split; [reflexivity|]. by eexists.
  - apply (render_holds_two_copies
             (set_achievementsData [record_b; record_a] example_page)).
    exists 0. split; [reflexivity|]. by eexists.
Defined.

Lemma item_content_priority a b :
  item_content a = item_content b → priority a = priority b.
Proof.
  unfold item_content, content, ticker_item. cbn.
  intros H. injection H as Hclass _ _ _ _.
  by apply (inj pretty).
Qed.

Lemma perform_sorted a s :
  renders a = true →
  priority_sorted (achievementsData s) →
  update_in_order a →
  priority_sorted (achievementsData (exec (perform a) s)).
Proof.
  intros Ha Hs Hup. destruct a; try discriminate; unfold exec; cbn [perform].
  - rewrite init_eq. cbn [snd].
    rewrite startTicker_data, setupTicker_data.
    apply loadAchievements_sorted.
  - rewrite updateAchievements_eq.
    match goal with |- context [setupTicker ?s'] =>
      fold (exec setupTicker s') end.
    by rewrite setupTicker_data.
  - rewrite addAchievement_eq.
    match goal with |- context [setupTicker ?s'] =>
      fold (exec setupTicker s') end.
    rewrite setupTicker_data. apply array_sort_sorted.
  - rewrite removeAchievement_eq.
    match goal with |- context [setupTicker ?s'] =>
      fold (exec setupTicker s') end.
    rewrite setupTicker_data. by apply filter_sorted.
  - rewrite filterByCategory_eq.
    match goal with |- context [setupTicker ?s'] =>
      fold (exec setupTicker s') end.
    rewrite setupTicker_data. cbn.
    destruct (String.eqb category' "all"); [done|by apply filter_sorted].
Qed.

(** C2, as the specification states it, fails: [updateAchievements]
    installs the list it is given and renders it in the order given.  With
    record a of priority 2 before record b of priority 1, no split of the
    rendered elements into two copies shows them in priority order. *)
Lemma update_renders_the_given_order :
  ¬ ∃ c1 c2,
      rendered_contents
        (exec (updateAchievements [record_a; record_b]) example_page)
      = Some (c1 ++ c2)
      ∧ length c1 = length c2
      ∧ in_priority_order c1 ∧ in_priority_order c2.
Proof.
  intros (c1 & c2 & Hr & Hlen & (d & Hd & Hsorted) & _).
  rewrite (perform_rendered (UpdateAchievements [record_a; record_b]))
    in Hr by (done || apply example_page_track_present).
  replace (achievementsData
             (exec (perform (UpdateAchievements [record_a; record_b]))
                example_page))
    with [record_a; record_b] in Hr by (vm_compute; reflexivity).
  injection Hr as Hr.
  assert (Hl : length (c1 ++ c2) = 4).
  { rewrite <- Hr. reflexivity. }
  rewrite length_app in Hl.
  destruct c1 as [|x1 [|x2 [|x3 c1]]]; simpl in Hl, Hlen; try lia.
  cbn in Hr. injection Hr as H1 H2 _.
  destruct d as [|a [|b [|? d]]]; try discriminate.
  cbn in Hd. injection Hd as Ha Hb.
  assert (Hpa : priority a = 2%Z).
  { apply (item_content_priority a record_a). congruence. }
  assert (Hpb : priority b = 1%Z).
  { apply (item_content_priority b record_b). congruence. }
  unfold priority_sorted in Hsorted.
  apply StronglySorted_cons in Hsorted as [Hab _].
  apply Forall_cons in Hab as [Hab _]. unfold priority_le in Hab. lia.
Qed.

(** C2, amended.  For every collection in non-decreasing priority order and
    every action that renders, where [updateAchievements] is handed an
    ordered list, the collection afterwards is in non-decreasing priority
    order and the track holds two copies of it, each in that order.
    [updateAchievements] installs the list it is given as it is, ordered or
    not, and renders it in the order given. *)
Theorem render_keeps_priority_order (s : State) (a : Action) :
  track_present s →
  renders a = true →
  (priority_sorted (achievementsData s) →
   update_in_order a →
   priority_sorted (achievementsData (exec (perform a) s))
   ∧ ∃ c, rendered_contents (exec (perform a) s) = Some (c ++ c)
          ∧ in_priority_order c)
  ∧ (∀ l, a = UpdateAchievements l →
          achievementsData (exec (perform a) s) = l
          ∧ rendered_contents (exec (perform a) s)
            = Some (map item_content l ++ map item_content l)).
Proof.
  intros Hs Ha. split.
  - intros Hsorted Hup.
    pose proof (perform_sorted a s Ha Hsorted Hup) as Hsorted'.
    split; [done|].
    exists (map item_content (achievementsData (exec (perform a) s))).
    split; [by apply perform_rendered|].
    by eexists.
  - intros l ->.
    assert (Hdata :
      achievementsData (exec (perform (UpdateAchievements l)) s) = l).
    { unfold exec. cbn [perform]. rewrite updateAchievements_eq.
      match goal with |- context [setupTicker ?s'] =>
        fold (exec setupTicker s') end.
      by rewrite setupTicker_data. }
    split; [done|].
    by rewrite (perform_rendered (UpdateAchievements l) s Ha Hs), Hdata.
Qed.

Lemma render_keeps_priority_order_witness :
  let s := set_achievementsData [record_b; record_a] example_page in
  let r := mkAchievement "c" "Z" "c" 1 in
  (priority_sorted (achievementsData s)
   ∧ achievementsData (exec (perform (AddAchievement r)) s)
     = [record_b; r; record_a]
   ∧ priority_sorted (achievementsData (exec (perform (AddAchievement r)) s))
   ∧ ∃ c, rendered_contents (exec (perform (AddAchievement r)) s)
          = Some (c ++ c)
          ∧ in_priority_order c)
  ∧ (achievementsData
       (exec (perform (UpdateAchievements [record_a; record_b])) s)
     = [record_a; record_b]
     ∧ rendered_contents
         (exec (perform (UpdateAchievements [record_a; record_b])) s)
       = Some (map item_content [record_a; record_b]
               ++ map item_content [record_a; record_b])).
Proof.
  assert (Hs : track_present
                 (set_achievementsData [record_b; record_a] example_page)).
  { exists 0. split; [reflexivity|]. by eexists. }
  assert (Hsorted : priority_sorted [record_b; record_a]).
  { unfold priority_sorted.
    apply SSorted_cons; [apply SSorted_cons; [apply SSorted_nil|]|].
    - apply Forall_nil_2.
    - apply Forall_cons_2; [|apply Forall_nil_2].
      unfold priority_le. simpl. lia. }
  split.
  - split; [exact Hsorted|]. split; [vm_compute; reflexivity|].
    exact (proj1 (render_keeps_priority_order
                    (set_achievementsData [record_b; record_a] example_page)
                    (AddAchievement (mkAchievement "c" "Z" "c" 1))
                    Hs eq_refl)
             Hsorted I).
  - exact (proj2 (render_keeps_priority_order
                    (set_achievementsData [record_b; record_a] example_page)
                    (UpdateAchievements [record_a; record_b])
                    Hs eq_refl)
             [record_a; record_b] eq_refl).
Defined.

(** C3.  For every collection and every category c other than "all",
    [filterByCategory(c)] followed by [filterByCategory("all")] leaves, and
    renders, only the records of category c: what the first call kept, not
    the collection held before it. *)
Theorem filter_all_shows_what_remained (s : State) (c : string) :
  c ≠ "all" →
  let kept := filter (λ a, category a = c) (achievementsData s) in
  let s' := exec (filterByCategory "all") (exec (filterByCategory c) s) in
  achievementsData s' = kept
  ∧ (track_present s →
     rendered_contents s'
     = Some (map item_content kept ++ map item_content kept))
  ∧ ((∃ a, a ∈ achievementsData s ∧ category a ≠ c) →
     achievementsData s' ≠ achievementsData s).
Proof.
  intros Hc kept s'.
  assert (Hdata : achievementsData s' = kept).
  { unfold s', exec. rewrite !filterByCategory_eq.
    repeat match goal with |- context [setupTicker ?s0] =>
      fold (exec setupTicker s0) end.
    rewrite setupTicker_data. cbn. rewrite setupTicker_data. cbn.
    apply String.eqb_neq in Hc. by rewrite Hc. }
  split; [done|]. split.
  - intros Hs. rewrite <- Hdata. unfold s'.
    apply (perform_rendered (FilterByCategory "all")); [done|].
    unfold exec. rewrite filterByCategory_eq.
    match goal with |- context [setupTicker ?s0] =>
      fold (exec setupTicker s0) end.
    by apply setupTicker_track_present.
  - intros (a & Ha & Hne) Heq. rewrite Hdata in Heq.
    pose proof (length_filter_lt (λ a, category a = c) _ a Ha Hne) as Hlt.
    fold kept in Hlt. rewrite Heq in Hlt. lia.
Qed.

Lemma filter_all_shows_what_remained_witness :
  let s := set_achievementsData [record_b; record_p; record_a] example_page in
  let s' := exec (filterByCategory "all") (exec (filterByCategory "c") s) in
  track_present s
  ∧ achievementsData s' = [record_b; record_a]
  ∧ rendered_contents s'
    = Some (map item_content [record_b; record_a]
            ++ map item_content [record_b; record_a])
  ∧ achievementsData s' ≠ achievementsData s.
Proof.
  assert (Hs : track_present
                 (set_achievementsData [record_b; record_p; record_a]
                    example_page)).
  { exists 0. split; [reflexivity|]. by eexists. }
  assert (Hc : "c" ≠ "all") by discriminate.
  assert (Hother :
    ∃ a, a ∈ achievementsData
               (set_achievementsData [record_b; record_p; record_a]
                  example_page)
         ∧ category a ≠ "c").
  { exists record_p. split; [|discriminate].
    apply list_elem_of_further, list_elem_of_here. }
  destruct (filter_all_shows_what_remained
              (set_achievementsData [record_b; record_p; record_a]
                 example_page) "c" Hc)
    as (Hdata & Hrendered & Hdiffers).
  split; [exact Hs|]. split; [exact Hdata|].
  split; [exact (Hrendered Hs)|exact (Hdiffers Hother)].
Defined.

(** C4, as the specification states it, fails: a body that parses to an
    object without the field [achievements] does not lead to the fallback
    list. *)
Lemma missing_field_is_not_fallback :
  achievementsData
    (exec (loadAchievements
             (FetchResolved (mkResponse 200 (JsonParsed (JsObject [])))))
       example_page)
  ≠ fallback.
Proof. vm_compute. discriminate. Qed.

(** C4, amended.  If the fetch succeeds with a body that parses to an
    object in which the field [achievements] is missing, the load returns
    normally with the empty collection and logs that it loaded 0 records. *)
Theorem missing_field_loads_empty (s : State) (st : Z)
    (fields : list (string * JsValue)) :
  ok (mkResponse st (JsonParsed (JsObject fields))) = true →
  get_field "achievements" fields = None →
  let fetched :=
    FetchResolved (mkResponse st (JsonParsed (JsObject fields))) in
  completion (loadAchievements fetched) s = Normal tt
  ∧ achievementsData (exec (loadAchievements fetched) s) = []
  ∧ console (exec (loadAchievements fetched) s)
    = console s
      ++ [console_log [ArgString "Loaded achievements:"; ArgNumber 0]].
Proof.
  intros Hok Hfield fetched. unfold completion, exec, fetched.
  rewrite (loadAchievements_array st (JsObject fields) [] s Hok).
  - done.
  - exists None. split; [|done]. simpl. by rewrite Hfield.
Qed.

Lemma missing_field_loads_empty_witness :
  let fetched :=
    FetchResolved
      (mkResponse 200 (JsonParsed (JsObject [("items", JsArray [])]))) in
  completion (loadAchievements fetched) example_page = Normal tt
  ∧ achievementsData (exec (loadAchievements fetched) example_page) = []
  ∧ console (exec (loadAchievements fetched) example_page)
    = console example_page
      ++ [console_log [ArgString "Loaded achievements:"; ArgNumber 0]].
Proof.
  apply (missing_field_loads_empty example_page 200 [("items", JsArray [])]);
    reflexivity.
Defined.

(** The error the try block of [loadAchievements] throws on a failing
    fetch is the one the catch block logs. *)
Lemma loadAchievements_fails_with fetched s :
  fetch_fails fetched →
  ∃ e, loadAchievements fetched s = (Normal tt, load_failure e s)
       ∧ match fetched with
         | FetchRejected rejection => e = rejection
         | FetchResolved r =>
             if ok r then json r = JsonRejected e
             else e = mkError "Error"
                        ("HTTP error! status: " +:+ pretty (status r))
         end.
Proof.
  destruct fetched as [e|r]; simpl.
  - intros _. by exists e.
  - intros Hfail. destruct (ok r) eqn:Hok.
    + destruct Hfail as [?|[e He]]; [done|].
      exists e. split; [|done]. unfold loadAchievements, try_catch.
      erewrite bind_eq by (simpl; js_unfold; reflexivity).
      rewrite Hok. cbn [negb].
      erewrite bind_eq by (js_unfold; reflexivity).
      unfold await_json. by rewrite He.
    + eexists. split; [|done]. unfold loadAchievements, try_catch.
      erewrite bind_eq by (simpl; js_unfold; reflexivity).
      by rewrite Hok.
Qed.

(** C5.  For every failing fetch (the request is rejected, the status is
    not in 200..299, or the body does not parse) the load catches the
    error, logs it and returns normally with the collection equal to the
    fallback list, which has three records; [init] returns normally as
    well and keeps that collection.  The error logged is the one caught:
    the rejection of the fetch, the error "HTTP error! status: N" made for
    the status N, or the rejection of [response.json()]. *)
Theorem failing_fetch_falls_back (fetched : FetchResult) (s : State) :
  fetch_fails fetched →
  completion (loadAchievements fetched) s = Normal tt
  ∧ achievementsData (exec (loadAchievements fetched) s) = fallback
  ∧ (∃ error,
       console (exec (loadAchievements fetched) s)
       = console s
         ++ [console_error [ArgString "Error loading achievements:";
                            ArgError error]]
       ∧ match fetched with
         | FetchRejected rejection => error = rejection
         | FetchResolved r =>
             if ok r then json r = JsonRejected error
             else safe_integer (status r) →
                  error = mkError "Error"
                            ("HTTP error! status: " +:+ pretty (status r))
         end)
  ∧ 3 ≤ length fallback
  ∧ completion (init fetched) s = Normal tt
  ∧ achievementsData (exec (init fetched) s) = fallback.
Proof.
  intros Hf.
  destruct (loadAchievements_fails_with fetched s Hf) as (e & He & Hcaught).
  unfold completion, exec. rewrite init_eq. cbn [fst snd].
  rewrite startTicker_data, setupTicker_data.
  unfold exec. rewrite He. cbn.
  split; [done|]. split; [done|]. split; [|by repeat split].
  exists e. split; [done|].
  destruct fetched as [rejection|r]; [done|].
  destruct (ok r); [done|]. by intros _.
Qed.

Lemma failing_fetch_falls_back_witness :
  let http := FetchResolved (mkResponse 500 (JsonParsed example_payload)) in
  let network := FetchRejected (mkError "TypeError" "Failed to fetch") in
  (achievementsData (exec (loadAchievements http) example_page) = fallback
   ∧ console (exec (loadAchievements http) example_page)
     = [console_error [ArgString "Error loading achievements:";
                       ArgError (mkError "Error" "HTTP error! status: 500")]]
   ∧ completion (init http) example_page = Normal tt)
  ∧ (achievementsData (exec (loadAchievements network) example_page)
     = fallback
     ∧ console (exec (loadAchievements network) example_page)
       = [console_error
            [ArgString "Error loading achievements:";
             ArgError (mkError "TypeError" "Failed to fetch")]]
     ∧ completion (init network) example_page = Normal tt).
Proof.
  split.
  - destruct (failing_fetch_falls_back
                (FetchResolved (mkResponse 500 (JsonParsed example_payload)))
                example_page (or_introl eq_refl))
      as (_ & Hdata & (error & Hlog & Hcaught) & _ & Hinit & _).
    split; [exact Hdata|]. split; [|exact Hinit].
    assert (Hsafe : safe_integer 500) by (unfold safe_integer; lia).
    rewrite Hlog. simpl in Hcaught. rewrite (Hcaught Hsafe).
    vm_compute. reflexivity.
  - destruct (failing_fetch_falls_back
                (FetchRejected (mkError "TypeError" "Failed to fetch"))
                example_page I)
      as (_ & Hdata & (error & Hlog & Hcaught) & _ & Hinit & _).
    split; [exact Hdata|]. split; [|exact Hinit].
    rewrite Hlog. simpl in Hcaught. by rewrite Hcaught.
Defined.

(** C6.  The loader sorts by priority only, and stably: for every fetched
    array the loaded collection is a rearrangement of the array in
    non-decreasing priority order in which the records of each priority
    keep their relative order.  The payload with record a (text X,
    priority 2) before record b (text Y, priority 1) renders as b, a, b, a,
    that is with the texts Y, X, Y, X. *)
Theorem loader_sort_is_stable_by_priority :
  (∀ (s : State) (st : Z) (fields : list (string * JsValue))
     (l : list Achievement),
     ok (mkResponse st (JsonParsed (JsObject fields))) = true →
     get_field "achievements" fields = Some (JsArray l) →
     let loaded :=
       achievementsData
         (exec (loadAchievements
                  (FetchResolved
                     (mkResponse st (JsonParsed (JsObject fields))))) s) in
     priority_sorted loaded
     ∧ loaded ≡ₚ l
     ∧ ∀ p, filter (λ a, priority a = p) loaded
            = filter (λ a, priority a = p) l)
  ∧ rendered_contents (exec (init example_fetch) (exec constructor example_page))
    = Some (map item_content [record_b; record_a; record_b; record_a])
  ∧ (map c_textContent
       <$> rendered_contents
             (exec (init example_fetch) (exec constructor example_page)))
    = Some ["Y"; "X"; "Y"; "X"].
Proof.
  split.
  - intros s st fields l Hok Hfield loaded.
    assert (Hl : loaded = array_sort by_priority l).
    { unfold loaded, exec.
      rewrite (loadAchievements_array st (JsObject fields) l s Hok); [done|].
      exists (Some (JsArray l)). split; [|done]. simpl. by rewrite Hfield. }
    rewrite Hl. split; [apply array_sort_sorted|].
    split; [apply array_sort_perm|]. intros p. apply array_sort_stable.
  - split; vm_compute; reflexivity.
Qed.

Lemma loader_sort_is_stable_by_priority_witness :
  let l := [record_a; record_b; mkAchievement "c" "Z" "c" 2] in
  let loaded :=
    achievementsData
      (exec (loadAchievements
               (FetchResolved
                  (mkResponse 200
                     (JsonParsed (JsObject [("achievements", JsArray l)])))))
         example_page) in
  priority_sorted loaded
  ∧ loaded ≡ₚ l
  ∧ ∀ p, filter (λ a, priority a = p) loaded = filter (λ a, priority a = p) l.
Proof.
  apply (proj1 loader_sort_is_stable_by_priority example_page 200%Z
           [("achievements",
             JsArray [record_a; record_b; mkAchievement "c" "Z" "c" 2])]
           [record_a; record_b; mkAchievement "c" "Z" "c" 2]);
    reflexivity.
Defined.




(** C9.  For every collection and every category c other than "all" that
    no record of the collection has, [filterByCategory(c)] leaves the empty
    collection, and the widget cannot bring the records back: a following
    [filterByCategory("all")] still renders no element, every further
    filter or remove keeps the collection empty, and the state does not
    depend on the records that were dropped. *)
Theorem filter_without_match_leaves_empty (s : State) (c : string) :
  c ≠ "all" →
  (∀ a, a ∈ achievementsData s → category a ≠ c) →
  let s1 := exec (filterByCategory c) s in
  let s2 := exec (filterByCategory "all") s1 in
  achievementsData s1 = []
  ∧ achievementsData s2 = []
  ∧ (track_present s → rendered s1 = Some [] ∧ rendered s2 = Some [])
  ∧ (∀ c', achievementsData (exec (filterByCategory c') s1) = [])
  ∧ (∀ i, achievementsData (exec (removeAchievement i) s1) = [])
  ∧ (∀ d, (∀ a, a ∈ d → category a ≠ c) →
          exec (filterByCategory c) (set_achievementsData d s) = s1).
Proof.
  intros Hc Hnone s1 s2.
  assert (Hfilter : ∀ d, (∀ a, a ∈ d → category a ≠ c) →
            filter (λ a, category a = c) d = []).
  { intros d Hd. apply filter_none. by apply Forall_forall. }
  apply String.eqb_neq in Hc.
  assert (Hs1 : s1 = exec setupTicker (set_achievementsData [] s)).
  { unfold s1, exec. rewrite filterByCategory_eq, Hc.
    by rewrite (Hfilter _ Hnone). }
  assert (Hd1 : achievementsData s1 = []).
  { rewrite Hs1. by rewrite setupTicker_data. }
  assert (Hall : ∀ c', achievementsData (exec (filterByCategory c') s1) = []).
  { intros c'. unfold exec. rewrite filterByCategory_eq.
    match goal with |- context [setupTicker ?s0] =>
      fold (exec setupTicker s0) end.
    rewrite setupTicker_data, Hd1. cbn. by destruct (String.eqb c' "all"). }
  split; [done|]. split; [apply Hall|]. split.
  - intros Hs.
    assert (Hr1 : rendered s1 = Some []).
    { rewrite Hs1. by rewrite setupTicker_rendered. }
    split; [done|].
    unfold s2, exec. rewrite filterByCategory_eq.
    match goal with |- context [setupTicker ?s0] =>
      fold (exec setupTicker s0) end.
    rewrite setupTicker_rendered.
    + cbn. by rewrite Hd1.
    + apply track_present_set_data. rewrite Hs1.
      by apply setupTicker_track_present.
  - split; [apply Hall|]. split.
    + intros i. unfold exec. rewrite removeAchievement_eq.
      match goal with |- context [setupTicker ?s0] =>
        fold (exec setupTicker s0) end.
      by rewrite setupTicker_data, Hd1.
    + intros d Hd. rewrite Hs1. unfold exec.
      rewrite filterByCategory_eq, Hc. cbn. by rewrite (Hfilter _ Hd).
Qed.

Lemma filter_without_match_leaves_empty_witness :
  let s := set_achievementsData [record_b; record_a] example_page in
  let s1 := exec (filterByCategory "d") s in
  let s2 := exec (filterByCategory "all") s1 in
  achievementsData s1 = []
  ∧ achievementsData s2 = []
  ∧ (track_present s → rendered s1 = Some [] ∧ rendered s2 = Some [])
  ∧ (∀ c', achievementsData (exec (filterByCategory c') s1) = [])
  ∧ (∀ i, achievementsData (exec (removeAchievement i) s1) = [])
  ∧ (∀ d, (∀ a, a ∈ d → category a ≠ "d") →
          exec (filterByCategory "d") (set_achievementsData d s) = s1).
Proof.
  apply (filter_without_match_leaves_empty
           (set_achievementsData [record_b; record_a] example_page) "d").
  - discriminate.
  - intros a Ha.
    apply elem_of_cons in Ha as [->|Ha]; [discriminate|].
    apply elem_of_cons in Ha as [->|Ha]; [discriminate|].
    by apply elem_of_nil in Ha.
Defined.

(** ** The interaction controller *)

Lemma pauseAnimation_eq s :
  pauseAnimation s
  = (Normal tt,
     match tickerTrack s with
     | Some l =>
         set_elements
           (alter (fun e =>
                     set_style (set_animationPlayState "paused" (style e)) e)
              l (elements s)) s
     | None => s
     end).
Proof.
  unfold pauseAnimation.
  erewrite bind_eq by (unfold gets; reflexivity).
  by destruct (tickerTrack s).
Qed.

Lemma resumeAnimation_eq s :
  resumeAnimation s
  = (Normal tt,
     match tickerTrack s with
     | Some l =>
         set_elements
           (alter (fun e =>
                     set_style (set_animationPlayState "running" (style e)) e)
              l (elements s)) s
     | None => s
     end).
Proof.
  unfold resumeAnimation.
  erewrite bind_eq by (unfold gets; reflexivity).
  by destruct (tickerTrack s).
Qed.

(** Writing a style property of one element changes no collection and no
    child, and nothing at all once the property is blanked. *)
Lemma restyle_same_items s l (f : Style → Style) :
  same_collection_and_items s
    (set_elements (alter (fun e => set_style (f (style e)) e) l (elements s))
       s).
Proof.
  split; [done|]. intros l'. cbn. rewrite lookup_alter.
  case_decide; [subst|done]. by destruct (elements s !! l').
Qed.

Lemma restyle_erase_animationPlayState s l v :
  erase_animationPlayState
    (set_elements
       (alter (fun e => set_style (set_animationPlayState v (style e)) e) l
          (elements s)) s)
  = erase_animationPlayState s.
Proof.
  unfold erase_animationPlayState, set_elements. cbn. f_equal.
  apply map_eq. intros l'. rewrite !lookup_fmap, lookup_alter.
  case_decide; [subst|done]. by destruct (elements s !! l').
Qed.

Lemma restyle_erase_animationDuration s l v :
  erase_animationDuration
    (set_elements
       (alter (fun e => set_style (set_animationDuration v (style e)) e) l
          (elements s)) s)
  = erase_animationDuration s.
Proof.
  unfold erase_animationDuration, set_elements. cbn. f_equal.
  apply map_eq. intros l'. rewrite !lookup_fmap, lookup_alter.
  case_decide; [subst|done]. by destruct (elements s !! l').
Qed.

Lemma same_collection_and_items_refl s : same_collection_and_items s s.
Proof. by split. Qed.

(** C10.  [pauseAnimation], [resumeAnimation] and [handleResponsiveSpeed]
    leave the collection and the children of every element as they are;
    pause and resume change nothing but the style property
    [animationPlayState] of the track, and [handleResponsiveSpeed] changes
    nothing but the style property [animationDuration] of the track: every
    element other than the one [this.tickerTrack] refers to is left
    exactly as it is. *)
Theorem interaction_controller_frame (s : State) :
  (same_collection_and_items s (exec pauseAnimation s)
   ∧ rendered (exec pauseAnimation s) = rendered s
   ∧ erase_animationPlayState (exec pauseAnimation s)
     = erase_animationPlayState s
   ∧ ∀ l, tickerTrack s ≠ Some l →
          elements (exec pauseAnimation s) !! l = elements s !! l)
  ∧ (same_collection_and_items s (exec resumeAnimation s)
     ∧ rendered (exec resumeAnimation s) = rendered s
     ∧ erase_animationPlayState (exec resumeAnimation s)
       = erase_animationPlayState s
     ∧ ∀ l, tickerTrack s ≠ Some l →
            elements (exec resumeAnimation s) !! l = elements s !! l)
  ∧ (same_collection_and_items s (exec handleResponsiveSpeed s)
     ∧ rendered (exec handleResponsiveSpeed s) = rendered s
     ∧ erase_animationDuration (exec handleResponsiveSpeed s)
       = erase_animationDuration s
     ∧ ∀ l, tickerTrack s ≠ Some l →
            elements (exec handleResponsiveSpeed s) !! l = elements s !! l).
Proof.
  assert (Hrendered : ∀ s', by_id s' = by_id s →
            same_collection_and_items s s' → rendered s' = rendered s).
  { intros s' Hid [_ Hc]. unfold rendered. rewrite Hid.
    destruct (by_id s !! "ticker-track") as [l|]; [|done]. apply Hc. }
  assert (Hothers : ∀ l0 (f : Element → Element) l,
            Some l0 ≠ Some l →
            elements (set_elements (alter f l0 (elements s)) s) !! l
            = elements s !! l).
  { intros l0 f l Hne. cbn. apply lookup_alter_ne. congruence. }
  unfold exec.
  rewrite pauseAnimation_eq, resumeAnimation_eq, handleResponsiveSpeed_eq.
  cbn [snd]. destruct (tickerTrack s) as [l|].
  - split; [|split].
    + split; [apply (restyle_same_items s l (set_animationPlayState _))|].
      split; [apply Hrendered; [done|];
              apply (restyle_same_items s l (set_animationPlayState _))|].
      split; [apply restyle_erase_animationPlayState|apply Hothers].
    + split; [apply (restyle_same_items s l (set_animationPlayState _))|].
      split; [apply Hrendered; [done|];
              apply (restyle_same_items s l (set_animationPlayState _))|].
      split; [apply restyle_erase_animationPlayState|apply Hothers].
    + split; [apply (restyle_same_items s l (set_animationDuration _))|].
      split; [apply Hrendered; [done|];
              apply (restyle_same_items s l (set_animationDuration _))|].
      split; [apply restyle_erase_animationDuration|apply Hothers].
  - repeat split.
Qed.

Lemma interaction_controller_frame_witness :
  tickerTrack example_ready ≠ Some 1
  ∧ elements (exec pauseAnimation example_ready) !! 1
    = elements example_ready !! 1
  ∧ elements (exec resumeAnimation example_ready) !! 1
    = elements example_ready !! 1
  ∧ elements (exec handleResponsiveSpeed example_ready) !! 1
    = elements example_ready !! 1.
Proof.
  assert (Hne : tickerTrack example_ready ≠ Some 1)
    by (vm_compute; discriminate).
  destruct (interaction_controller_frame example_ready)
    as ((_ & _ & _ & Hp) & (_ & _ & _ & Hr) & (_ & _ & _ & Hd)).
  split; [exact Hne|]. split; [exact (Hp 1 Hne)|].
  split; [exact (Hr 1 Hne)|exact (Hd 1 Hne)].
Defined.

(** ** What holds in every reachable state *)

Lemma inv_frame s s' :
  animationSpeed s' = animationSpeed s →
  by_id s' = by_id s →
  by_selector s' = by_selector s →
  tickerTrack s' = tickerTrack s →
  window_listeners s' = window_listeners s →
  dom (elements s') = dom (elements s) →
  widget_inv s → widget_inv s'.
Proof.
  intros Hspeed Hid Hsel Htrack Hwin Hdom (I1 & [I2 I2'] & I3 & I4).
  assert (Hsome : ∀ l, is_Some (elements s !! l) → is_Some (elements s' !! l)).
  { intros l Hl. apply elem_of_dom. rewrite Hdom. by apply elem_of_dom. }
  unfold widget_inv, page_wf.
  rewrite Hspeed, Hid, Hsel, Htrack, Hwin. repeat split; eauto.
Qed.

Lemma inv_restyle s l (f : Element → Element) :
  widget_inv s → widget_inv (set_elements (alter f l (elements s)) s).
Proof. apply inv_frame; try done. cbn. by rewrite dom_alter_L. Qed.

Lemma inv_setupTicker s : widget_inv s → widget_inv (exec setupTicker s).
Proof.
  intros (I1 & [I2 I2'] & I3 & I4). unfold exec.
  destruct (by_id s !! "ticker-track") as [l|] eqn:Hl.
  - rewrite (setupTicker_present s l Hl). cbn [snd].
    assert (Hsome : ∀ l', is_Some (elements s !! l') →
              is_Some (setupTicker_elements l s !! l')).
    { intros l' Hl'. apply elem_of_dom. rewrite setupTicker_elements_dom.
      by apply elem_of_dom. }
    unfold widget_inv, page_wf. cbn. repeat split; eauto.
    + intros l' [= <-]. eauto.
    + intros _. apply elem_of_app. right. by apply list_elem_of_singleton.
  - rewrite (setupTicker_absent s Hl). cbn [snd].
    unfold widget_inv, page_wf. cbn. repeat split; eauto.
    + intros l' [=].
    + intros [l' [=]].
Qed.

Lemma inv_loadAchievements fetched s :
  widget_inv s → widget_inv (exec (loadAchievements fetched) s).
Proof.
  unfold exec.
  destruct (loadAchievements_cases fetched s) as [[l ->]|[e ->]];
    by apply inv_frame.
Qed.

Lemma inv_startTicker s : widget_inv s → widget_inv (exec startTicker s).
Proof.
  unfold exec. rewrite startTicker_eq. cbn [snd].
  destruct (by_selector s !! ".achievements-ticker-container") as [c|].
  - apply inv_frame; try done. cbn. by rewrite dom_alter_L.
  - by apply inv_frame.
Qed.

Lemma inv_run_handler h s :
  widget_inv s →
  ∃ s', run_handler h s = (Normal tt, s') ∧ widget_inv s'.
Proof.
  intros Hs. destruct h; simpl.
  - rewrite pauseAnimation_eq. eexists. split; [done|].
    destruct (tickerTrack s); [by apply inv_restyle|done].
  - rewrite resumeAnimation_eq. eexists. split; [done|].
    destruct (tickerTrack s); [by apply inv_restyle|done].
  - rewrite handleResponsiveSpeed_eq. eexists. split; [done|].
    destruct (tickerTrack s); [by apply inv_restyle|done].
Qed.

Lemma inv_handlers hs s :
  widget_inv s → widget_inv (exec (forEach hs run_handler) s).
Proof.
  revert s. induction hs as [|h hs IH]; intros s Hs; [done|].
  destruct (inv_run_handler h s Hs) as (s' & Hrun & Hs').
  unfold exec. cbn [forEach]. erewrite bind_eq by exact Hrun.
  by apply IH.
Qed.

Lemma inv_perform a s : widget_inv s → widget_inv (exec (perform a) s).
Proof.
  intros Hs. destruct a; cbn [perform].
  - unfold exec. rewrite init_eq. cbn [snd].
    by apply inv_startTicker, inv_setupTicker, inv_loadAchievements.
  - unfold exec. rewrite updateAchievements_eq.
    match goal with |- context [setupTicker ?s0] =>
      fold (exec setupTicker s0) end.
    by apply inv_setupTicker.
  - unfold exec. rewrite addAchievement_eq.
    match goal with |- context [setupTicker ?s0] =>
      fold (exec setupTicker s0) end.
    by apply inv_setupTicker.
  - unfold exec. rewrite removeAchievement_eq.
    match goal with |- context [setupTicker ?s0] =>
      fold (exec setupTicker s0) end.
    by apply inv_setupTicker.
  - unfold exec. rewrite filterByCategory_eq.
    match goal with |- context [setupTicker ?s0] =>
      fold (exec setupTicker s0) end.
    by apply inv_setupTicker.
  - unfold element_event, exec.
    erewrite bind_eq by (unfold gets; reflexivity).
    by apply inv_handlers.
  - unfold window_resize, exec.
    erewrite bind_eq by (unfold modify; reflexivity).
    erewrite bind_eq by (unfold gets; reflexivity).
    apply inv_handlers. by apply (inv_frame s).
  - destruct t. unfold exec. simpl.
    erewrite bind_eq by (unfold gets; reflexivity).
    destruct (tickerTrack s); [by apply inv_restyle|done].
Qed.

Lemma inv_constructor s0 : page_wf s0 → widget_inv (exec constructor s0).
Proof.
  intros [H1 H2]. unfold widget_inv, page_wf. cbn. repeat split; eauto.
  - intros l [=].
  - intros [l [=]].
Qed.

Lemma reachable_inv s : reachable s → widget_inv s.
Proof.
  induction 1 as [s0 Hwf|s a _ IH].
  - by apply inv_constructor.
  - by apply inv_perform.
Qed.

(** ** The responsive speed *)

Lemma pretty_speeds :
  pretty 15%Z +:+ "s" = "15s" ∧ pretty 20%Z +:+ "s" = "20s"
  ∧ pretty 30%Z +:+ "s" = "30s".
Proof. repeat split; vm_compute; reflexivity. Qed.

Lemma handleResponsiveSpeed_rule s l :
  animationSpeed s = 30%Z →
  tickerTrack s = Some l →
  is_Some (elements s !! l) →
  follows_speed_rule (innerWidth s) (exec handleResponsiveSpeed s).
Proof.
  intros Hspeed Htrack [e He]. unfold exec.
  rewrite handleResponsiveSpeed_eq, Htrack, Hspeed. cbn [snd].
  destruct pretty_speeds as (H15 & H20 & H30).
  unfold follows_speed_rule, track_duration. cbn. rewrite Htrack. cbn.
  rewrite lookup_alter_eq, He. cbn.
  repeat split; intros Hw.
  - apply Z.leb_le in Hw. rewrite Hw. by rewrite H15.
  - destruct Hw as [Hw1 Hw2].
    apply Z.leb_gt in Hw1. apply Z.leb_le in Hw2. rewrite Hw1, Hw2.
    by rewrite H20.
  - assert (Hw1 : (innerWidth s <=? 480)%Z = false) by (apply Z.leb_gt; lia).
    apply Z.leb_gt in Hw. rewrite Hw1, Hw. by rewrite H30.
Qed.

(** A handler keeps what the rule needs, and keeps the duration the rule
    asks for once it is set. *)
Lemma run_handler_rule h s l :
  animationSpeed s = 30%Z →
  tickerTrack s = Some l →
  is_Some (elements s !! l) →
  ∃ s', run_handler h s = (Normal tt, s')
        ∧ animationSpeed s' = 30%Z
        ∧ tickerTrack s' = Some l
        ∧ is_Some (elements s' !! l)
        ∧ innerWidth s' = innerWidth s
        ∧ (h = OnResize ∨ follows_speed_rule (innerWidth s) s →
           follows_speed_rule (innerWidth s) s').
Proof.
  intros Hspeed Htrack Hl.
  assert (Hsome : ∀ f : Element → Element,
            is_Some (alter f l (elements s) !! l)).
  { intros f. apply elem_of_dom. rewrite dom_alter_L. by apply elem_of_dom. }
  assert (Hkeep : ∀ v,
    track_duration
      (set_elements
         (alter (fun e => set_style (set_animationPlayState v (style e)) e) l
            (elements s)) s)
    = track_duration s).
  { intros v. unfold track_duration. cbn. rewrite Htrack. cbn.
    rewrite lookup_alter_eq. by destruct (elements s !! l). }
  destruct h; simpl.
  - rewrite pauseAnimation_eq, Htrack. eexists. split; [done|].
    split; [done|]. split; [done|]. split; [apply Hsome|].
    split; [done|]. intros [?|Hr]; [done|].
    unfold follows_speed_rule in *. rewrite Hkeep. apply Hr.
  - rewrite resumeAnimation_eq, Htrack. eexists. split; [done|].
    split; [done|]. split; [done|]. split; [apply Hsome|].
    split; [done|]. intros [?|Hr]; [done|].
    unfold follows_speed_rule in *. rewrite Hkeep. apply Hr.
  - pose proof (handleResponsiveSpeed_rule s l Hspeed Htrack Hl) as Hrule.
    unfold exec in Hrule. rewrite handleResponsiveSpeed_eq, Htrack in *.
    eexists. split; [done|].
    split; [done|]. split; [done|]. split; [apply Hsome|].
    split; [done|]. intros _. apply Hrule.
Qed.

Lemma handlers_keep_rule hs s l :
  animationSpeed s = 30%Z →
  tickerTrack s = Some l →
  is_Some (elements s !! l) →
  follows_speed_rule (innerWidth s) s →
  follows_speed_rule (innerWidth s) (exec (forEach hs run_handler) s).
Proof.
  revert s. induction hs as [|h hs IH]; intros s Hspeed Htrack Hl Hrule;
    [done|].
  destruct (run_handler_rule h s l Hspeed Htrack Hl)
    as (s' & Hrun & Hspeed' & Htrack' & Hl' & Hw & Hrule').
  unfold exec. cbn [forEach]. erewrite bind_eq by exact Hrun.
  rewrite <- Hw. apply IH; try done. rewrite Hw. apply Hrule'. by right.
Qed.

Lemma handlers_set_rule hs s l :
  OnResize ∈ hs →
  animationSpeed s = 30%Z →
  tickerTrack s = Some l →
  is_Some (elements s !! l) →
  follows_speed_rule (innerWidth s) (exec (forEach hs run_handler) s).
Proof.
  revert s. induction hs as [|h hs IH]; intros s Hin Hspeed Htrack Hl.
  { by apply elem_of_nil in Hin. }
  destruct (run_handler_rule h s l Hspeed Htrack Hl)
    as (s' & Hrun & Hspeed' & Htrack' & Hl' & Hw & Hrule').
  unfold exec. cbn [forEach]. erewrite bind_eq by exact Hrun.
  rewrite <- Hw. apply elem_of_cons in Hin as [<-|Hin].
  - apply (handlers_keep_rule hs s' l); try done.
    rewrite Hw. apply Hrule'. by left.
  - by apply (IH s').
Qed.

Lemma page_wf_example_page : page_wf example_page.
Proof.
  split; intros i l Hl; cbn in Hl.
  - apply lookup_singleton_Some in Hl as [_ <-]. by eexists.
  - apply lookup_singleton_Some in Hl as [_ <-]. by eexists.
Qed.

Lemma reachable_example_ready : reachable example_ready.
Proof.
  apply reachable_step, reachable_new, page_wf_example_page.
Qed.

(** The render sets the duration by the rule, whatever else the state
    holds. *)
Lemma setupTicker_rule s :
  animationSpeed s = 30%Z →
  track_present s →
  follows_speed_rule (innerWidth s) (exec setupTicker s).
Proof.
  intros Hspeed (l & Hl & [e He]).
  unfold exec, follows_speed_rule, track_duration.
  rewrite (setupTicker_present s l Hl). cbn [snd tickerTrack]. cbn.
  rewrite (setupTicker_elements_lookup s l e He), Hspeed. cbn.
  destruct pretty_speeds as (H15 & H20 & H30).
  repeat split; intros Hw.
  - apply Z.leb_le in Hw. rewrite Hw. by rewrite H15.
  - destruct Hw as [Hw1 Hw2].
    apply Z.leb_gt in Hw1. apply Z.leb_le in Hw2. rewrite Hw1, Hw2.
    by rewrite H20.
  - assert (Hw1 : (innerWidth s <=? 480)%Z = false)
      by (apply Z.leb_gt; lia).
    apply Z.leb_gt in Hw. rewrite Hw1, Hw. by rewrite H30.
Qed.

Lemma startTicker_track_duration s :
  track_duration (exec startTicker s) = track_duration s.
Proof.
  unfold exec. rewrite startTicker_eq. unfold track_duration. cbn.
  destruct (by_selector s !! ".achievements-ticker-container") as [c|];
    [|done].
  cbn. destruct (tickerTrack s) as [l|]; [|done]. cbn.
  rewrite lookup_alter. case_decide; [subst|done].
  by destruct (elements s !! l).
Qed.

(** Every action that renders sets the duration by the rule. *)
Lemma perform_rule a s :
  animationSpeed s = 30%Z →
  renders a = true →
  track_present s →
  follows_speed_rule (innerWidth s) (exec (perform a) s).
Proof.
  intros Hspeed Ha Hs. destruct a; try discriminate; unfold exec;
    cbn [perform].
  - rewrite init_eq. cbn [snd].
    unfold follows_speed_rule. rewrite startTicker_track_duration.
    assert (Hload : ∃ s1, exec (loadAchievements fetched) s = s1
              ∧ animationSpeed s1 = animationSpeed s
              ∧ innerWidth s1 = innerWidth s
              ∧ track_present s1).
    { exists (exec (loadAchievements fetched) s). split; [done|].
      split; [|split; [|by apply loadAchievements_track_present]].
      all: unfold exec;
        by destruct (loadAchievements_cases fetched s) as [[l ->]|[e ->]]. }
    destruct Hload as (s1 & -> & Hspeed1 & Hwidth1 & Hs1).
    rewrite <- Hwidth1. apply setupTicker_rule; congruence.
  - rewrite updateAchievements_eq.
    match goal with |- context [setupTicker ?s0] =>
      fold (exec setupTicker s0) end.
    by apply (setupTicker_rule (set_achievementsData _ s)).
  - rewrite addAchievement_eq.
    match goal with |- context [setupTicker ?s0] =>
      fold (exec setupTicker s0) end.
    by apply (setupTicker_rule (set_achievementsData _ s)).
  - rewrite removeAchievement_eq.
    match goal with |- context [setupTicker ?s0] =>
      fold (exec setupTicker s0) end.
    by apply (setupTicker_rule (set_achievementsData _ s)).
  - rewrite filterByCategory_eq.
    match goal with |- context [setupTicker ?s0] =>
      fold (exec setupTicker s0) end.
    by apply (setupTicker_rule (set_achievementsData _ s)).
Qed.

(** C8.  In every state the widget can be in, each evaluation of the
    responsive-speed rule sets the animation duration of the track from
    the viewport width alone: "15s" for a width of at most 480, "20s" for a
    width above 480 and at most 768, "30s" for any width above 768.  This
    holds of a call of [handleResponsiveSpeed] and of a resize event, with
    the track attached, and of the attach in every render of a page with
    the track: a bare [setupTicker] and the renders of [init],
    [updateAchievements], [addAchievement], [removeAchievement] and
    [filterByCategory].  So a resize to 400 sets "15s", to 600 "20s" and to
    1024 "30s". *)
Theorem responsive_speed_rule (s : State) (width : Z) :
  reachable s →
  (is_Some (tickerTrack s) →
   follows_speed_rule width
     (exec handleResponsiveSpeed (set_innerWidth width s))
   ∧ follows_speed_rule width (exec (window_resize width) s))
  ∧ (track_present s →
     follows_speed_rule (innerWidth s) (exec setupTicker s))
  ∧ (∀ a, renders a = true → track_present s →
          follows_speed_rule (innerWidth s) (exec (perform a) s))
  ∧ track_duration (exec (window_resize 400) example_ready) = Some "15s"
  ∧ track_duration (exec (window_resize 600) example_ready) = Some "20s"
  ∧ track_duration (exec (window_resize 1024) example_ready) = Some "30s".
Proof.
  intros Hreach.
  destruct (reachable_inv s Hreach) as (Hspeed & [Hwf _] & Hptr & Hlisten).
  split; [|split; [|split]].
  - intros [l Htrack]. split.
    + by apply (handleResponsiveSpeed_rule (set_innerWidth width s) l);
        [| |apply Hptr].
    + unfold window_resize, exec.
      erewrite bind_eq by (unfold modify; reflexivity).
      erewrite bind_eq by (unfold gets; reflexivity).
      apply (handlers_set_rule _ (set_innerWidth width s) l);
        [|done|done|by apply Hptr].
      cbn [window_listeners set_innerWidth]. unfold handlers_for.
      apply (list_elem_of_fmap_2 snd _ ("resize", OnResize)).
      apply list_elem_of_filter. split; [done|]. apply Hlisten. by eexists.
  - by apply setupTicker_rule.
  - intros a Ha Hs. by apply perform_rule.
  - repeat split; vm_compute; reflexivity.
Qed.

Lemma responsive_speed_rule_witness :
  (reachable example_ready
   ∧ is_Some (tickerTrack example_ready)
   ∧ follows_speed_rule 600
       (exec handleResponsiveSpeed (set_innerWidth 600 example_ready))
   ∧ follows_speed_rule 600 (exec (window_resize 600) example_ready))
  ∧ (reachable (exec (perform (WindowResize 600)) example_ready)
     ∧ track_present (exec (perform (WindowResize 600)) example_ready)
     ∧ innerWidth (exec (perform (WindowResize 600)) example_ready) = 600%Z
     ∧ track_duration
         (exec (perform (AddAchievement record_p))
            (exec (perform (WindowResize 600)) example_ready))
       = Some "20s").
Proof.
  assert (Hr : reachable example_ready)
    by exact (reachable_step _ (Init example_fetch)
                (reachable_new example_page page_wf_example_page)).
  assert (Ht : is_Some (tickerTrack example_ready))
    by (vm_compute; eexists; reflexivity).
  assert (Hr' : reachable (exec (perform (WindowResize 600)) example_ready))
    by exact (reachable_step _ (WindowResize 600) Hr).
  assert (Hp : track_present
                 (exec (perform (WindowResize 600)) example_ready)).
  { exists 0. split; [vm_compute; reflexivity|].
    vm_compute. eexists; reflexivity. }
  assert (Hw : innerWidth (exec (perform (WindowResize 600)) example_ready)
               = 600%Z) by (vm_compute; reflexivity).
  split.
  - split; [exact Hr|]. split; [exact Ht|].
    exact (proj1 (responsive_speed_rule example_ready 600 Hr) Ht).
  - split; [exact Hr'|]. split; [exact Hp|]. split; [exact Hw|].
    apply (proj1 (proj2 (proj1 (proj2 (proj2
             (responsive_speed_rule
                (exec (perform (WindowResize 600)) example_ready) 0 Hr')))
             (AddAchievement record_p) eq_refl Hp))).
    rewrite Hw. lia.
Defined.

(** * Further properties of the class *)

(** ** A render without the track *)

(** X1.  When the document has no element with the id [ticker-track], a
    render returns normally, logs one error line, sets [this.tickerTrack]
    to null, whatever it was, and changes nothing else: no element, no
    listener, not the collection. *)
Theorem render_without_track_is_logged_noop (s : State) :
  by_id s !! "ticker-track" = None →
  let s' := exec setupTicker s in
  completion setupTicker s = Normal tt
  ∧ tickerTrack s' = None
  ∧ console s'
    = console s ++ [console_error [ArgString "Ticker track element not found"]]
  ∧ set_console [] (set_tickerTrack None s')
    = set_console [] (set_tickerTrack None s)
  ∧ rendered s' = None.
Proof.
  intros Hl s'. unfold s', completion, exec, rendered.
  rewrite (setupTicker_absent s Hl). cbn. by rewrite Hl.
Qed.

Lemma render_without_track_is_logged_noop_witness :
  let s := set_achievementsData [record_b; record_a] example_page_no_track in
  let s' := exec setupTicker s in
  completion setupTicker s = Normal tt
  ∧ tickerTrack s' = None
  ∧ console s'
    = console s ++ [console_error [ArgString "Ticker track element not found"]]
  ∧ set_console [] (set_tickerTrack None s')
    = set_console [] (set_tickerTrack None s)
  ∧ rendered s' = None.
Proof.
  apply (render_without_track_is_logged_noop
           (set_achievementsData [record_b; record_a] example_page_no_track)).
  reflexivity.
Defined.

(** ** The mutation methods on the collection *)

Lemma addAchievement_data r s :
  achievementsData (exec (addAchievement r) s)
  = array_sort by_priority (achievementsData s ++ [r]).
Proof.
  unfold exec. rewrite addAchievement_eq.
  match goal with |- context [setupTicker ?s0] =>
    fold (exec setupTicker s0) end.
  by rewrite setupTicker_data.
Qed.



(** X2.  [addAchievement] leaves the collection in non-decreasing priority
    order whatever its order was before, with exactly the old records and
    the new one; among the records of one priority the old ones keep their
    order and the new record comes last. *)
Theorem add_sorts_and_appends_among_equals (s : State) (r : Achievement) :
  let d := achievementsData s in
  let d' := achievementsData (exec (addAchievement r) s) in
  priority_sorted d'
  ∧ d' ≡ₚ r :: d
  ∧ length d' = S (length d)
  ∧ ∀ p, filter (λ a, priority a = p) d'
         = filter (λ a, priority a = p) d
           ++ (if decide (priority r = p) then [r] else []).
Proof.
  intros d d'. unfold d'. rewrite addAchievement_data. fold d.
  split; [apply array_sort_sorted|].
  assert (Hperm : array_sort by_priority (d ++ [r]) ≡ₚ r :: d).
  { rewrite array_sort_perm. by rewrite Permutation_app_comm. }
  split; [done|]. split; [by rewrite Hperm|].
  intros p. by rewrite array_sort_stable, filter_app.
Qed.





(** ** Events *)

Lemma only_styles_differ_refl s : only_styles_differ s s.
Proof. by split. Qed.

Lemma only_styles_differ_trans s1 s2 s3 :
  only_styles_differ s1 s2 → only_styles_differ s2 s3 →
  only_styles_differ s1 s3.
Proof.
  intros [H1 H1'] [H2 H2']. split; [congruence|].
  intros l. by rewrite H2', H1'.
Qed.

Lemma only_styles_differ_restyle s l (f : Style → Style) :
  only_styles_differ s
    (set_elements (alter (fun e => set_style (f (style e)) e) l (elements s))
       s).
Proof.
  split; [done|]. intros l'. cbn. rewrite lookup_alter.
  case_decide; [subst|done]. by destruct (elements s !! l').
Qed.

(** What equal fields and equal children give. *)
Lemma only_styles_differ_fields s s' :
  only_styles_differ s s' →
  tickerTrack s' = tickerTrack s
  ∧ achievementsData s' = achievementsData s
  ∧ by_id s' = by_id s
  ∧ window_listeners s' = window_listeners s
  ∧ innerWidth s' = innerWidth s
  ∧ (∀ l, is_Some (elements s' !! l) ↔ is_Some (elements s !! l))
  ∧ (∀ l, listeners <$> (elements s' !! l) = listeners <$> (elements s !! l))
  ∧ rendered s' = rendered s.
Proof.
  intros [Hf Hc].
  assert (Hid : by_id s' = by_id s) by exact (f_equal by_id Hf).
  split; [exact (f_equal tickerTrack Hf)|].
  split; [exact (f_equal achievementsData Hf)|].
  split; [done|].
  split; [exact (f_equal window_listeners Hf)|].
  split; [exact (f_equal innerWidth Hf)|].
  split; [|split].
  - intros l. specialize (Hc l).
    destruct (elements s' !! l), (elements s !! l); simplify_eq/=;
      split; intros [? ?]; by eauto.
  - intros l. specialize (Hc l).
    destruct (elements s' !! l), (elements s !! l); simplify_eq/=;
      congruence.
  - unfold rendered. rewrite Hid.
    destruct (by_id s !! "ticker-track") as [l|]; [|done]. cbn.
    specialize (Hc l).
    destruct (elements s' !! l), (elements s !! l); simplify_eq/=;
      congruence.
Qed.

(** Each of the three listeners writes one style property of the track, or
    does nothing when there is no track. *)
Lemma run_handler_restyle h s :
  ∃ f : Style → Style,
    run_handler h s
    = (Normal tt,
       match tickerTrack s with
       | Some l =>
           set_elements
             (alter (fun e => set_style (f (style e)) e) l (elements s)) s
       | None => s
       end).
Proof.
  destruct h; simpl.
  - exists (set_animationPlayState "paused"). apply pauseAnimation_eq.
  - exists (set_animationPlayState "running"). apply resumeAnimation_eq.
  - eexists (set_animationDuration _). apply handleResponsiveSpeed_eq.
Qed.

Lemma run_handler_only_styles h s :
  ∃ s', run_handler h s = (Normal tt, s') ∧ only_styles_differ s s'.
Proof.
  destruct (run_handler_restyle h s) as [f Hf]. eexists. split; [exact Hf|].
  destruct (tickerTrack s).
  - apply only_styles_differ_restyle.
  - apply only_styles_differ_refl.
Qed.

Lemma handlers_only_styles hs s :
  ∃ s', forEach hs run_handler s = (Normal tt, s') ∧ only_styles_differ s s'.
Proof.
  revert s. induction hs as [|h hs IH]; intros s.
  - exists s. split; [done|apply only_styles_differ_refl].
  - destruct (run_handler_only_styles h s) as (s1 & Hrun & H1).
    destruct (IH s1) as (s2 & Hrest & H2).
    exists s2. split; [|by eapply only_styles_differ_trans].
    cbn [forEach]. by erewrite bind_eq by exact Hrun.
Qed.

Lemma forEach_handlers_app hs1 hs2 s :
  forEach (hs1 ++ hs2) run_handler s
  = forEach hs2 run_handler (exec (forEach hs1 run_handler) s).
Proof.
  revert s. induction hs1 as [|h hs1 IH]; intros s; [done|].
  destruct (run_handler_only_styles h s) as (s1 & Hrun & _).
  unfold exec. cbn [forEach app]. erewrite !bind_eq by exact Hrun.
  apply IH.
Qed.

Lemma element_event_only_styles s l type :
  only_styles_differ s (exec (element_event l type) s).
Proof.
  unfold exec, element_event.
  erewrite bind_eq by (unfold gets; reflexivity).
  by destruct (handlers_only_styles
                 (handlers_for type
                    (from_option listeners [] (elements s !! l))) s)
    as (s' & -> & Hs').
Qed.

(** X5.  No event changes anything but styles: whatever listeners are
    registered, an event on an element, a timeout and a resize of the
    window return normally and leave the collection, the children and the
    listeners of every element, the console and every other field as they
    are (the resize stores the new width). *)
Theorem events_only_restyle (s : State) :
  (∀ l type,
     completion (element_event l type) s = Normal tt
     ∧ only_styles_differ s (exec (element_event l type) s))
  ∧ (∀ t,
       completion (run_timeout t) s = Normal tt
       ∧ only_styles_differ s (exec (run_timeout t) s))
  ∧ (∀ width,
       completion (window_resize width) s = Normal tt
       ∧ only_styles_differ (set_innerWidth width s)
           (exec (window_resize width) s)).
Proof.
  split; [|split].
  - intros l type. unfold completion, exec, element_event.
    erewrite bind_eq by (unfold gets; reflexivity).
    destruct (handlers_only_styles
                (handlers_for type
                   (from_option listeners [] (elements s !! l))) s)
      as (s' & -> & Hs').
    by split.
  - intros []. unfold completion, exec. simpl.
    erewrite bind_eq by (unfold gets; reflexivity).
    destruct (tickerTrack s) as [l|]; simpl.
    + split; [done|].
      apply (only_styles_differ_restyle s l (set_opacity "1")).
    + split; [done|apply only_styles_differ_refl].
  - intros width. unfold completion, exec, window_resize.
    erewrite bind_eq by (unfold modify; reflexivity).
    erewrite bind_eq by (unfold gets; reflexivity).
    destruct (handlers_only_styles
                (handlers_for "resize"
                   (window_listeners (set_innerWidth width s)))
                (set_innerWidth width s))
      as (s' & -> & Hs').
    by split.
Qed.

(** X6.  While [this.tickerTrack] is null the controller is inert: pause,
    resume, the responsive speed, every event on an element and every
    timeout leave the state exactly as it is, and a resize stores the new
    width and nothing else. *)
Theorem controller_is_inert_without_track (s : State) :
  tickerTrack s = None →
  exec pauseAnimation s = s
  ∧ exec resumeAnimation s = s
  ∧ exec handleResponsiveSpeed s = s
  ∧ (∀ l type, exec (element_event l type) s = s)
  ∧ (∀ t, exec (run_timeout t) s = s)
  ∧ (∀ width, exec (window_resize width) s = set_innerWidth width s).
Proof.
  intros Htrack.
  assert (Hhandlers : ∀ hs s0, tickerTrack s0 = None →
            exec (forEach hs run_handler) s0 = s0).
  { induction hs as [|h hs IH]; intros s0 H0; [done|].
    destruct (run_handler_restyle h s0) as [f Hf]. rewrite H0 in Hf.
    unfold exec. cbn [forEach]. erewrite bind_eq by exact Hf.
    by apply IH. }
  unfold exec at 1 2 3.
  rewrite pauseAnimation_eq, resumeAnimation_eq, handleResponsiveSpeed_eq,
    Htrack.
  repeat split; try done.
  - intros l type. unfold exec, element_event.
    erewrite bind_eq by (unfold gets; reflexivity).
    by apply Hhandlers.
  - intros []. unfold exec. simpl.
    erewrite bind_eq by (unfold gets; reflexivity).
    by rewrite Htrack.
  - intros width. unfold exec, window_resize.
    erewrite bind_eq by (unfold modify; reflexivity).
    erewrite bind_eq by (unfold gets; reflexivity).
    by apply Hhandlers.
Qed.

Lemma controller_is_inert_without_track_witness :
  let s := exec setupTicker example_page_no_track in
  tickerTrack s = None
  ∧ exec pauseAnimation s = s
  ∧ (∀ width, exec (window_resize width) s = set_innerWidth width s).
Proof.
  assert (Ht : tickerTrack (exec setupTicker example_page_no_track) = None)
    by reflexivity.
  split; [exact Ht|].
  destruct (controller_is_inert_without_track
              (exec setupTicker example_page_no_track) Ht)
    as (Hp & _ & _ & _ & _ & Hw).
  by split.
Defined.

(** ** Hovering the track *)

Lemma handlers_for_app type ls1 ls2 :
  handlers_for type (ls1 ++ ls2)
  = handlers_for type ls1 ++ handlers_for type ls2.
Proof. unfold handlers_for. by rewrite filter_app, fmap_app. Qed.

(** The handler registered last decides the play state. *)
Lemma last_hover_handler_wins hs s l :
  tickerTrack s = Some l →
  is_Some (elements s !! l) →
  track_playState (exec (forEach (hs ++ [OnMouseEnter]) run_handler) s)
  = Some "paused"
  ∧ track_playState (exec (forEach (hs ++ [OnMouseLeave]) run_handler) s)
    = Some "running".
Proof.
  intros Htrack Hl.
  destruct (handlers_only_styles hs s) as (s' & Hrun & Hs').
  destruct (only_styles_differ_fields s s' Hs')
    as (Htrack' & _ & _ & _ & _ & Hsome & _).
  rewrite Htrack in Htrack'.
  assert (Hl' : is_Some (elements s' !! l)) by by apply Hsome.
  destruct Hl' as [e He].
  unfold exec. rewrite !forEach_handlers_app. unfold exec. rewrite Hrun.
  cbn [snd forEach run_handler].
  erewrite !bind_eq by (first [apply pauseAnimation_eq
                              |apply resumeAnimation_eq]).
  rewrite Htrack'. unfold track_playState. cbn. rewrite Htrack'. cbn.
  by rewrite !lookup_alter_eq, He.
Qed.

(** X7.  After a render that found the track, a [mouseenter] on the track
    sets its play state to "paused" and a following [mouseleave] sets it
    to "running", whatever listeners the track carried before; the
    rendered elements stay as they are. *)
Theorem hover_pauses_and_resumes (s : State) :
  track_present s →
  ∃ l, tickerTrack (exec setupTicker s) = Some l
       ∧ let s1 := exec setupTicker s in
         let s2 := exec (element_event l "mouseenter") s1 in
         let s3 := exec (element_event l "mouseleave") s2 in
         track_playState s2 = Some "paused"
         ∧ track_playState s3 = Some "running"
         ∧ rendered s2 = rendered s1
         ∧ rendered s3 = rendered s1.
Proof.
  intros (l & Hl & [e He]). exists l.
  assert (Htrack1 : tickerTrack (exec setupTicker s) = Some l).
  { unfold exec. by rewrite (setupTicker_present s l Hl). }
  split; [done|]. intros s1 s2 s3.
  assert (He1 : ∃ e1, elements s1 !! l = Some e1
             ∧ listeners e1
               = listeners e ++ [("mouseenter", OnMouseEnter)]
                 ++ [("mouseleave", OnMouseLeave)]).
  { unfold s1, exec. rewrite (setupTicker_present s l Hl). cbn [snd elements].
    rewrite (setupTicker_elements_lookup s l e He). by eexists. }
  destruct He1 as (e1 & He1 & Hls1).
  pose proof (element_event_only_styles s1 l "mouseenter") as H12.
  fold s2 in H12.
  pose proof (element_event_only_styles s2 l "mouseleave") as H23.
  fold s3 in H23.
  destruct (only_styles_differ_fields s1 s2 H12)
    as (Htrack2 & _ & _ & _ & _ & Hsome2 & Hls2 & Hr2).
  destruct (only_styles_differ_fields s2 s3 H23)
    as (_ & _ & _ & _ & _ & _ & _ & Hr3).
  fold s1 in Htrack1. rewrite Htrack1 in Htrack2.
  assert (Hl2 : is_Some (elements s2 !! l)).
  { apply Hsome2. by eexists. }
  split; [|split; [|split; [done|congruence]]].
  - unfold s2, exec, element_event.
    erewrite bind_eq by (unfold gets; reflexivity).
    rewrite He1. cbn [from_option]. rewrite Hls1, !handlers_for_app.
    change (handlers_for "mouseenter" [("mouseenter", OnMouseEnter)])
      with [OnMouseEnter].
    change (handlers_for "mouseenter" [("mouseleave", OnMouseLeave)])
      with (@nil Handler).
    rewrite app_nil_r.
    by apply (last_hover_handler_wins _ s1 l); [|eexists].
  - specialize (Hls2 l). rewrite He1 in Hls2.
    destruct Hl2 as [e2 He2]. rewrite He2 in Hls2. cbn in Hls2.
    injection Hls2 as Hls2.
    unfold s3, exec, element_event.
    erewrite bind_eq by (unfold gets; reflexivity).
    rewrite He2. cbn [from_option]. rewrite Hls2, Hls1, !handlers_for_app.
    change (handlers_for "mouseleave" [("mouseenter", OnMouseEnter)])
      with (@nil Handler).
    change (handlers_for "mouseleave" [("mouseleave", OnMouseLeave)])
      with [OnMouseLeave].
    rewrite app_assoc.
    by apply (last_hover_handler_wins _ s2 l); [|eexists].
Qed.

Lemma hover_pauses_and_resumes_witness :
  ∃ l, tickerTrack (exec setupTicker example_page) = Some l
       ∧ let s1 := exec setupTicker example_page in
         let s2 := exec (element_event l "mouseenter") s1 in
         let s3 := exec (element_event l "mouseleave") s2 in
         track_playState s2 = Some "paused"
         ∧ track_playState s3 = Some "running"
         ∧ rendered s2 = rendered s1
         ∧ rendered s3 = rendered s1.
Proof.
  apply (hover_pauses_and_resumes example_page).
  exists 0. split; [reflexivity|]. by eexists.
Defined.

(** ** Listeners pile up *)

Lemma concat_replicate_end {A} k (h : list A) :
  concat (replicate k h) ++ h = h ++ concat (replicate k h).
Proof.
  induction k as [|k IH]; simpl; [by rewrite app_nil_r|].
  by rewrite <- app_assoc, IH.
Qed.

(** X8.  Every render that finds the track registers one more [resize]
    listener on the window and one more [mouseenter] and [mouseleave]
    listener on the track, and removes none: after k renders there are k
    more of each. *)
Theorem renders_accumulate_listeners (s : State) (k : nat) (l : loc)
    (e : Element) :
  by_id s !! "ticker-track" = Some l →
  elements s !! l = Some e →
  let s' := Nat.iter k (exec setupTicker) s in
  window_listeners s'
  = window_listeners s ++ replicate k ("resize", OnResize)
  ∧ listeners <$> (elements s' !! l)
    = Some (listeners e ++ concat (replicate k hover_listeners))
  ∧ by_id s' = by_id s.
Proof.
  intros Hl He. cbv zeta. induction k as [|k IH].
  - simpl. rewrite He, !app_nil_r. done.
  - destruct IH as (Hw & Hls & Hid).
    rewrite Nat.iter_succ.
    set (sk := Nat.iter k (exec setupTicker) s) in *.
    assert (Hlk : by_id sk !! "ticker-track" = Some l) by by rewrite Hid.
    destruct (elements sk !! l) as [ek|] eqn:Hek; [|done].
    cbn in Hls. injection Hls as Hls.
    unfold exec at 1 2 3. rewrite (setupTicker_present sk l Hlk).
    cbn [snd window_listeners elements by_id].
    rewrite (setupTicker_elements_lookup sk l ek Hek). cbn.
    split; [|split; [|done]].
    + rewrite Hw, <- app_assoc. f_equal.
      exact (eq_sym (replicate_S_end k ("resize", OnResize))).
    + f_equal. rewrite Hls, <- app_assoc. f_equal.
      exact (concat_replicate_end k hover_listeners).
Qed.

Lemma renders_accumulate_listeners_witness :
  let s' := Nat.iter 3 (exec setupTicker) example_page in
  window_listeners s'
  = window_listeners example_page ++ replicate 3 ("resize", OnResize)
  ∧ listeners <$> (elements s' !! 0)
    = Some (listeners (mkElement [] empty_style [])
            ++ concat (replicate 3 hover_listeners))
  ∧ by_id s' = by_id example_page.
Proof.
  apply (renders_accumulate_listeners example_page 3 0
           (mkElement [] empty_style [])); reflexivity.
Defined.

(** ** The fade-in *)

Lemma setupTicker_elements_opacity l s c :
  opacity <$> (style <$> (setupTicker_elements l s !! c))
  = opacity <$> (style <$> (elements s !! c)).
Proof.
  destruct (decide (l = c)) as [<-|Hne].
  - destruct (elements s !! l) as [e|] eqn:He.
    + by rewrite (setupTicker_elements_lookup s l e He).
    + assert (Hnone : setupTicker_elements l s !! l = None).
      { apply not_elem_of_dom. rewrite setupTicker_elements_dom.
        by apply not_elem_of_dom. }
      by rewrite Hnone.
  - unfold setupTicker_elements. cbv zeta.
    rewrite !lookup_alter_ne by done.
    by rewrite !append_all_style, lookup_alter_ne by done.
Qed.

Lemma setupTicker_opacity s c :
  opacity <$> (style <$> (elements (exec setupTicker s) !! c))
  = opacity <$> (style <$> (elements s !! c)).
Proof.
  unfold exec. destruct (by_id s !! "ticker-track") as [l|] eqn:Hl.
  - rewrite (setupTicker_present s l Hl). cbn [snd elements].
    apply setupTicker_elements_opacity.
  - by rewrite (setupTicker_absent s Hl).
Qed.

(** The fields [loadAchievements] and [setupTicker] leave alone. *)
Lemma load_and_render_frame fetched s :
  let s2 := exec setupTicker (exec (loadAchievements fetched) s) in
  isLoaded s2 = isLoaded s
  ∧ timeouts s2 = timeouts s
  ∧ by_selector s2 = by_selector s
  ∧ by_id s2 = by_id s
  ∧ tickerTrack s2 = by_id s !! "ticker-track"
  ∧ (∀ c, opacity <$> (style <$> (elements s2 !! c))
          = opacity <$> (style <$> (elements s !! c)))
  ∧ (∀ c, is_Some (elements s2 !! c) ↔ is_Some (elements s !! c)).
Proof.
  intros s2.
  assert (H1 : ∃ s1, exec (loadAchievements fetched) s = s1
            ∧ isLoaded s1 = isLoaded s ∧ timeouts s1 = timeouts s
            ∧ by_selector s1 = by_selector s ∧ by_id s1 = by_id s
            ∧ elements s1 = elements s).
  { unfold exec.
    destruct (loadAchievements_cases fetched s) as [[l ->]|[e ->]];
      by eexists. }
  destruct H1 as (s1 & Hs1 & HL & HT & HS & HI & HE).
  unfold s2. rewrite Hs1. rewrite <- HL, <- HT, <- HS, <- HI, <- HE.
  clear. rename s1 into s. unfold exec.
  destruct (by_id s !! "ticker-track") as [l|] eqn:Hl.
  - pose proof (setupTicker_opacity s) as Hop. unfold exec in Hop.
    rewrite (setupTicker_present s l Hl) in *. cbn [snd] in *.
    repeat split; try done.
    all: cbn [elements]; rewrite <- !elem_of_dom, setupTicker_elements_dom;
      done.
  - rewrite (setupTicker_absent s Hl). by repeat split.
Qed.

(** X9.  [init] marks the widget as loaded, and makes the container
    opaque, exactly when the document has the container; it always
    schedules the fade-in of the track after 500 ms, and when that timeout
    runs on a page with the track, the track becomes opaque. *)
Theorem init_fades_in (fetched : FetchResult) (s : State) :
  let s' := exec (init fetched) s in
  isLoaded s'
  = (if by_selector s !! ".achievements-ticker-container" is Some _
     then true else isLoaded s)
  ∧ timeouts s' = timeouts s ++ [(FadeInTrack, 500%Z)]
  ∧ (∀ c, by_selector s !! ".achievements-ticker-container" = Some c →
          opacity <$> (style <$> (elements s' !! c))
          = (fun _ => "1") <$> (elements s !! c))
  ∧ (track_present s →
     track_opacity (exec (run_timeout FadeInTrack) s') = Some "1").
Proof.
  intros s'.
  destruct (load_and_render_frame fetched s)
    as (HL & HT & HS & HI & Htrack & Hop & Hsome).
  set (s2 := exec setupTicker (exec (loadAchievements fetched) s)) in *.
  assert (Hs' : s' = exec startTicker s2).
  { unfold s', exec at 1. by rewrite init_eq. }
  unfold exec in Hs'. rewrite startTicker_eq in Hs'. cbn [snd] in Hs'.
  rewrite Hs', HS. clear Hs'.
  destruct (by_selector s !! ".achievements-ticker-container") as [c|] eqn:Hc.
  - cbn. split; [done|]. split; [by rewrite HT|]. split.
    + intros c' [= <-]. rewrite lookup_alter_eq.
      specialize (Hsome c).
      destruct (elements s2 !! c), (elements s !! c); try done.
      * destruct Hsome as [Hs _]. by destruct Hs.
      * destruct Hsome as [_ Hs]. by destruct Hs.
    + intros (l & Hl & He). unfold exec. simpl.
      erewrite bind_eq by (unfold gets; reflexivity).
      cbn [tickerTrack set_timeouts set_isLoaded set_elements].
      rewrite Htrack, Hl. cbn.
      unfold track_opacity. cbn. rewrite Htrack, Hl. cbn.
      rewrite lookup_alter_eq, lookup_alter.
      apply Hsome in He. destruct He as [e2 He2].
      case_decide; [subst c|]; rewrite He2; done.
  - cbn. split; [done|]. split; [by rewrite HT|]. split; [done|].
    intros (l & Hl & He). unfold exec. simpl.
    erewrite bind_eq by (unfold gets; reflexivity).
    cbn [tickerTrack set_timeouts set_isLoaded set_elements].
      rewrite Htrack, Hl. cbn.
    unfold track_opacity. cbn. rewrite Htrack, Hl. cbn.
    rewrite lookup_alter_eq.
    apply Hsome in He. destruct He as [e2 He2]. by rewrite He2.
Qed.

Lemma init_fades_in_witness :
  let s' := exec (init example_fetch) example_page in
  (opacity <$> (style <$> (elements s' !! 1))
   = (fun _ => "1") <$> (elements example_page !! 1))
  ∧ track_opacity (exec (run_timeout FadeInTrack) s') = Some "1".
Proof.
  destruct (init_fades_in example_fetch example_page)
    as (_ & _ & Hc & Ht).
  split.
  - apply (Hc 1). reflexivity.
  - apply Ht. exists 0. split; [reflexivity|]. by eexists.
Defined.

(** ** More of the loader *)

(** X10.  A body that parses to [null], or to an object whose
    [achievements] field holds a truthy value that is no array, makes the
    try block throw a TypeError; the load logs it and ends with the
    fallback collection, as for a failed fetch. *)
Theorem load_falls_back_on_type_error (s : State) (st : Z) (data : JsValue) :
  ok (mkResponse st (JsonParsed data)) = true →
  (data = JsNull
   ∨ ∃ fields v, data = JsObject fields
       ∧ get_field "achievements" fields = Some v
       ∧ truthy v = true
       ∧ ∀ l, v ≠ JsArray l) →
  let fetched := FetchResolved (mkResponse st (JsonParsed data)) in
  completion (loadAchievements fetched) s = Normal tt
  ∧ achievementsData (exec (loadAchievements fetched) s) = fallback
  ∧ ∃ message,
      console (exec (loadAchievements fetched) s)
      = console s
        ++ [console_error [ArgString "Error loading achievements:";
                           ArgError (mkError "TypeError" message)]].
Proof.
  intros Hok Hdata fetched.
  assert (Hrun : ∃ message,
    loadAchievements fetched s
    = (Normal tt, load_failure (mkError "TypeError" message) s)).
  { unfold fetched, loadAchievements, try_catch.
    erewrite bind_eq by (simpl; js_unfold; reflexivity).
    rewrite Hok. cbn [negb].
    erewrite bind_eq by (js_unfold; reflexivity).
    erewrite bind_eq by (simpl; js_unfold; reflexivity).
    destruct Hdata as [->|(fields & v & -> & Hv & Ht & Harr)].
    - by eexists.
    - erewrite bind_eq by (simpl; js_unfold; reflexivity).
      rewrite Hv. simpl. rewrite Ht.
      destruct v; try (by eexists). by destruct (Harr l). }
  destruct Hrun as [message Hrun].
  unfold completion, exec. rewrite Hrun. cbn. eauto.
Qed.

Lemma load_falls_back_on_type_error_witness :
  let fetched :=
    FetchResolved
      (mkResponse 200
         (JsonParsed (JsObject [("achievements", JsString "none")]))) in
  completion (loadAchievements fetched) example_page = Normal tt
  ∧ achievementsData (exec (loadAchievements fetched) example_page) = fallback
  ∧ ∃ message,
      console (exec (loadAchievements fetched) example_page)
      = console example_page
        ++ [console_error [ArgString "Error loading achievements:";
                           ArgError (mkError "TypeError" message)]].
Proof.
  apply (load_falls_back_on_type_error example_page 200%Z
           (JsObject [("achievements", JsString "none")])).
  - reflexivity.
  - right. exists [("achievements", JsString "none")], (JsString "none").
    repeat split; try reflexivity. intros l. discriminate.
Defined.

(** X11.  A body that parses to a number, a string, a boolean or an array,
    or to an object whose [achievements] field holds a falsy value (null,
    false, 0, the empty string), loads the empty collection without any
    error, like a missing field. *)
Theorem load_is_empty_without_usable_field (s : State) (st : Z)
    (data : JsValue) :
  ok (mkResponse st (JsonParsed data)) = true →
  match data with
  | JsNull => False
  | JsObject fields =>
      ∃ v, get_field "achievements" fields = Some v ∧ truthy v = false
  | _ => True
  end →
  let fetched := FetchResolved (mkResponse st (JsonParsed data)) in
  completion (loadAchievements fetched) s = Normal tt
  ∧ achievementsData (exec (loadAchievements fetched) s) = []
  ∧ console (exec (loadAchievements fetched) s)
    = console s
      ++ [console_log [ArgString "Loaded achievements:"; ArgNumber 0]].
Proof.
  intros Hok Hdata fetched. unfold completion, exec, fetched.
  rewrite (loadAchievements_array st data [] s Hok); [done|].
  destruct data as [|b|n|str|l|fields]; try done; try (by exists None).
  destruct Hdata as (v & Hv & Ht).
  exists (Some v). split; [simpl; by rewrite Hv|]. simpl. by rewrite Ht.
Qed.

Lemma load_is_empty_without_usable_field_witness :
  let fetched :=
    FetchResolved
      (mkResponse 200 (JsonParsed (JsObject [("achievements", JsNull)]))) in
  completion (loadAchievements fetched) example_page = Normal tt
  ∧ achievementsData (exec (loadAchievements fetched) example_page) = []
  ∧ console (exec (loadAchievements fetched) example_page)
    = console example_page
      ++ [console_log [ArgString "Loaded achievements:"; ArgNumber 0]].
Proof.
  apply (load_is_empty_without_usable_field example_page 200%Z
           (JsObject [("achievements", JsNull)])).
  - reflexivity.
  - exists JsNull. split; reflexivity.
Defined.

(** The outcome of a load is the same in every state. *)
Lemma loadAchievements_uniform fetched :
  (∃ l, ∀ s, loadAchievements fetched s = (Normal tt, load_success l s))
  ∨ (∃ e, ∀ s, loadAchievements fetched s = (Normal tt, load_failure e s)).
Proof.
  destruct fetched as [e|[st [e|data]]].
  - right. by exists e.
  - right. destruct (ok (mkResponse st (JsonRejected e))) eqn:Hok.
    + exists e. intros s. unfold loadAchievements, try_catch.
      erewrite bind_eq by (simpl; js_unfold; reflexivity).
      by rewrite Hok.
    + eexists. intros s. unfold loadAchievements, try_catch.
      erewrite bind_eq by (simpl; js_unfold; reflexivity).
      by rewrite Hok.
  - destruct (ok (mkResponse st (JsonParsed data))) eqn:Hok.
    2:{ right. eexists. intros s. unfold loadAchievements, try_catch.
        erewrite bind_eq by (simpl; js_unfold; reflexivity).
        by rewrite Hok. }
    destruct data as [|b|n|str|l|fields].
    + right. eexists. intros s. unfold loadAchievements, try_catch.
      erewrite bind_eq by (simpl; js_unfold; reflexivity).
      by rewrite Hok.
    + left. exists []. intros s. apply loadAchievements_array; [done|].
      by exists None.
    + left. exists []. intros s. apply loadAchievements_array; [done|].
      by exists None.
    + left. exists []. intros s. apply loadAchievements_array; [done|].
      by exists None.
    + left. exists []. intros s. apply loadAchievements_array; [done|].
      by exists None.
    + destruct (or_empty_array (get_field "achievements" fields))
        as [|b|n|str|l|fields'] eqn:Hv.
      5:{ left. exists l. intros s. apply loadAchievements_array; [done|].
          by exists (get_field "achievements" fields). }
      all: right; eexists; intros s; unfold loadAchievements, try_catch;
        erewrite bind_eq by (simpl; js_unfold; reflexivity);
        rewrite Hok; cbn [negb];
        erewrite bind_eq by (js_unfold; reflexivity);
        erewrite bind_eq by (simpl; js_unfold; reflexivity);
        erewrite bind_eq by (simpl; js_unfold; reflexivity);
        rewrite Hv; reflexivity.
Qed.

(** X12.  [init] returns normally for every outcome of the fetch, and the
    collection it leaves is decided by that outcome alone: it is in
    non-decreasing priority order, and whatever the page put into the
    collection before the fetch completed is overwritten. *)
Theorem init_overwrites_the_collection (fetched : FetchResult)
    (s s' : State) :
  completion (init fetched) s = Normal tt
  ∧ achievementsData (exec (init fetched) s)
    = achievementsData (exec (init fetched) s')
  ∧ priority_sorted (achievementsData (exec (init fetched) s))
  ∧ ∀ a, achievementsData (exec (init fetched) (exec (perform a) s))
         = achievementsData (exec (init fetched) s).
Proof.
  assert (Hindep : ∀ s1 s2,
    achievementsData (exec (init fetched) s1)
    = achievementsData (exec (init fetched) s2)).
  { intros s1 s2. unfold exec at 1 2. rewrite !init_eq. cbn [snd].
    rewrite !startTicker_data, !setupTicker_data. unfold exec.
    destruct (loadAchievements_uniform fetched) as [[l Hl]|[e He]].
    - by rewrite !Hl.
    - by rewrite !He. }
  split; [unfold completion; by rewrite init_eq|].
  split; [apply Hindep|]. split; [|intros a; apply Hindep].
  unfold exec at 1. rewrite init_eq. cbn [snd].
  rewrite startTicker_data, setupTicker_data.
  apply loadAchievements_sorted.
Qed.

(** ** Reading the records back from the items *)

Lemma item_content_inj a b : item_content a = item_content b → a = b.
Proof.
  intros H. pose proof (item_content_priority a b H) as Hp.
  unfold item_content, content, ticker_item in H. cbn in H.
  inversion H as [[Hclass Hc Hi Ht]].
  destruct a, b; simpl in *. congruence.
Qed.

Lemma map_item_content_inj d1 d2 :
  map item_content d1 = map item_content d2 → d1 = d2.
Proof.
  revert d2. induction d1 as [|a d1 IH]; intros [|b d2] H;
    try discriminate; [done|].
  cbn [map] in H.
  assert (Ha : item_content a = item_content b) by congruence.
  assert (Hd : map item_content d1 = map item_content d2) by congruence.
  f_equal; [by apply item_content_inj|by apply IH].
Qed.

(** X13.  The items show all of a record: two records with the same item
    are the same record, so after a render the collection can be read back
    from the track; it is the only list whose two copies are shown. *)
Theorem rendered_items_identify_the_collection (s : State)
    (d : list Achievement) :
  track_present s →
  rendered_contents (exec setupTicker s)
  = Some (map item_content d ++ map item_content d) →
  d = achievementsData s.
Proof.
  intros Hs Hr. rewrite (setupTicker_rendered_contents s Hs) in Hr.
  injection Hr as Hr. symmetry in Hr.
  assert (Hlen : length (map item_content d)
                 = length (map item_content (achievementsData s))).
  { apply (f_equal length) in Hr. rewrite !length_app in Hr. lia. }
  apply app_inj_1 in Hr as [Hr _]; [|done].
  by apply map_item_content_inj.
Qed.

Lemma rendered_items_identify_the_collection_witness :
  [record_b; record_a]
  = achievementsData (set_achievementsData [record_b; record_a] example_page).
Proof.
  apply (rendered_items_identify_the_collection
           (set_achievementsData [record_b; record_a] example_page)
           [record_b; record_a]).
  - exists 0. split; [reflexivity|]. by eexists.
  - vm_compute. reflexivity.
Defined.

(** X14.  After a render of a collection of n records, the elements at the
    positions i and n + i both show the record at position i: a [div] with
    the record's text as content and as [title], its category as
    [data-category] and its id as [data-id], and, for a priority that is a
    safe integer P, of class [ticker-item priority-P]. *)
Theorem each_record_is_shown_twice (s : State) (i : nat) (a : Achievement) :
  track_present s →
  achievementsData s !! i = Some a →
  ∃ cs, rendered_contents (exec setupTicker s) = Some cs
        ∧ cs !! i = Some (item_content a)
        ∧ cs !! (length (achievementsData s) + i) = Some (item_content a)
        ∧ c_tagName (item_content a) = "div"
        ∧ (safe_integer (priority a) →
           c_className (item_content a)
           = "ticker-item priority-" +:+ pretty (priority a))
        ∧ c_textContent (item_content a) = text a
        ∧ c_attributes (item_content a)
          = [("data-category", category a); ("data-id", id a);
             ("title", text a)].
Proof.
  intros Hs Ha. eexists. split; [by apply setupTicker_rendered_contents|].
  assert (Hi : map item_content (achievementsData s) !! i
               = Some (item_content a)).
  { change (map item_content (achievementsData s))
      with (item_content <$> achievementsData s).
    by rewrite list_lookup_fmap, Ha. }
  split; [by apply lookup_app_l_Some|].
  split; [|done].
  rewrite lookup_app_r by (rewrite length_map; lia).
  rewrite length_map.
  by replace (length (achievementsData s) + i - length (achievementsData s))
    with i by lia.
Qed.

Lemma each_record_is_shown_twice_witness :
  safe_integer (priority record_a)
  ∧ ∃ cs,
      rendered_contents
        (exec setupTicker
           (set_achievementsData [record_b; record_a] example_page))
      = Some cs
      ∧ cs !! 1 = Some (item_content record_a)
      ∧ cs !! (2 + 1) = Some (item_content record_a)
      ∧ c_tagName (item_content record_a) = "div"
      ∧ c_className (item_content record_a) = "ticker-item priority-2"
      ∧ c_textContent (item_content record_a) = "X"
      ∧ c_attributes (item_content record_a)
        = [("data-category", "c"); ("data-id", "a"); ("title", "X")].
Proof.
  assert (Hsafe : safe_integer (priority record_a))
    by (unfold safe_integer; simpl; lia).
  split; [exact Hsafe|].
  destruct (each_record_is_shown_twice
              (set_achievementsData [record_b; record_a] example_page)
              1 record_a) as (cs & Hr & H1 & H2 & Htag & Hclass & Ht & Hattr).
  - exists 0. split; [reflexivity|]. by eexists.
  - reflexivity.
  - exists cs. split; [exact Hr|]. split; [exact H1|]. split; [exact H2|].
    split; [exact Htag|]. split; [|split; [exact Ht|exact Hattr]].
    rewrite (Hclass Hsafe). vm_compute. reflexivity.
Defined.
